(** * Comparison engine of excel_comparison.py

    A shallow embedding of [ExcelComparisonApp.calculate_result]
    (src/excel_comparison.py, lines 777-859) together with the pandas
    operations it relies on, and the properties of the comparison result.

    Scope of the embedding.  A data frame is a header (the column labels) and
    a list of rows.  Cells are numbers, texts or missing values (NaN).  The
    header labels are texts.  The embedding follows pandas on frames whose
    labels are pairwise distinct and whose rows all have the width of the
    header ([wf_table]); the theorems assume it of both input frames.

    Around the comparison the file embeds what leads to it and what shows it:
    [compare_files] (lines 745-775) with the preparation of the two sheets,
    the text of [open_result_window] (lines 934-986), the file selection
    (lines 725-743), and the settings window with the stored settings
    ([SettingsManager], lines 8-65; [SettingsWindow.build_ui],
    [reset_to_defaults] and [save_settings], lines 221-287 and 361-455).
    The texts of the settings window are ASCII texts of at most 4300
    characters ([Py.typed]); the stored settings hold indices and the list of
    custom comparisons.  Widgets, styles and the files on disk are outside
    the embedding: a file that could not be read or written is an input. *)

From Stdlib Require Import QArith Qcanon Ascii DecimalString DecimalPos.
From stdpp Require Import numbers countable strings gmap fin_sets fin_maps list.

Local Open Scope Z_scope.
Local Open Scope string_scope.
Local Open Scope list_scope.

(** ** Exceptions and the error monad *)

(** The two exceptions the comparison can end in: [columns[i]] and [.iloc[0]]
    raise IndexError, a label that a frame or a row does not have raises
    KeyError. *)
Inductive exn := IndexError | KeyError.

Inductive res (A : Type) : Type :=
| Ok (a : A)
| Raise (e : exn).
Arguments Ok {A} a.
Arguments Raise {A} e.

#[global] Instance exn_eq_dec : EqDecision exn.
Proof. solve_decision. Defined.

#[global] Instance res_ret : MRet res := λ A a, Ok a.
#[global] Instance res_bind : MBind res := λ A B f m,
  match m with Ok a => f a | Raise e => Raise e end.

Definition is_raise {A} (m : res A) : Prop :=
  match m with Ok _ => False | Raise _ => True end.

(** A [for] loop that appends one item per element, stopping at the first
    exception. *)
Fixpoint for_each {A B} (f : A → res B) (l : list A) : res (list B) :=
  match l with
  | [] => Ok []
  | x :: l' => y ← f x; ys ← for_each f l'; Ok (y :: ys)
  end.

(** ** Cell values *)

(** A number is an exact rational (every finite float is one); a missing cell
    is a NaN object.  Python's [set] tests identity before equality, hence a
    NaN object carries its identity [oid]: two NaN cells are the same set
    element exactly when they are the same object (pandas writes the [np.nan]
    singleton into object columns, the case where all [oid]s agree). *)
Inductive value :=
| VNum (q : Qc)
| VStr (s : string)
| VNaN (oid : nat).

#[global] Instance value_eq_dec : EqDecision value.
Proof. solve_decision. Defined.

#[global] Instance value_countable : Countable value.
Proof.
  refine (inj_countable'
    (λ v, match v with
          | VNum q => inl q
          | VStr s => inr (inl s)
          | VNaN n => inr (inr n)
          end)
    (λ x, match x with
          | inl q => VNum q
          | inr (inl s) => VStr s
          | inr (inr n) => VNaN n
          end) _).
  by intros [].
Defined.

#[global] Instance value_inhabited : Inhabited value := populate (VNaN 0).

(** Python's [==] on two cells: numbers by value, texts by exact text, a
    number never equals a text, NaN equals nothing (itself included). *)
Definition py_eq (a b : value) : bool :=
  match a, b with
  | VNum x, VNum y => bool_decide (x = y)
  | VStr s, VStr t => bool_decide (s = t)
  | _, _ => false
  end.

(** Python's [!=]. *)
Definition py_ne (a b : value) : bool := negb (py_eq a b).

(** ** Data frames *)

Record DataFrame := {
  columns : list string;
  rows : list (list value)
}.

Definition wf_table (df : DataFrame) : Prop :=
  NoDup (columns df) ∧ Forall (λ r, length r = length (columns df)) (rows df).

#[global] Instance wf_table_dec df : Decision (wf_table df).
Proof. unfold wf_table. apply _. Defined.

(** [seq[i]] of Python: negative positions count from the end. *)
Definition py_index {A} (l : list A) (i : Z) : res A :=
  let n := Z.of_nat (length l) in
  let j := if bool_decide (i < 0) then n + i else i in
  if bool_decide (0 ≤ j < n)
  then match l !! Z.to_nat j with Some x => Ok x | None => Raise IndexError end
  else Raise IndexError.

(** [df.columns[i]] *)
Definition columns_at (df : DataFrame) (i : Z) : res string :=
  py_index (columns df) i.

Definition valid_position (df : DataFrame) (i : Z) : Prop :=
  - Z.of_nat (length (columns df)) ≤ i < Z.of_nat (length (columns df)).

(** Position of a label in the header, [KeyError] when it is absent. *)
Definition get_loc (df : DataFrame) (label : string) : res nat :=
  match list_find (λ c, c = label) (columns df) with
  | Some (pos, _) => Ok pos
  | None => Raise KeyError
  end.

Definition cell (r : list value) (pos : nat) : value := r !!! pos.

(** [df[label].values] *)
Definition col_values (df : DataFrame) (label : string) : res (list value) :=
  pos ← get_loc df label; Ok ((λ r, cell r pos) <$> rows df).

(** [df[df[label] == code]]: the rows whose cell under [label] equals [code]. *)
Definition select_rows (df : DataFrame) (label : string) (code : value)
  : res (list (list value)) :=
  pos ← get_loc df label;
  Ok (filter (λ r, py_eq (cell r pos) code = true) (rows df)).

(** [.iloc[0]] *)
Definition iloc0 {A} (l : list A) : res A :=
  match l with
  | [] => Raise IndexError
  | x :: _ => Ok x
  end.

(** [df[df[code_column] == code].iloc[0]] *)
Definition first_row (df : DataFrame) (code_column : string) (code : value)
  : res (list value) :=
  rs ← select_rows df code_column code; iloc0 rs.

(** [row[col]] for a row of [df]. *)
Definition row_get (df : DataFrame) (r : list value) (col : string) : res value :=
  pos ← get_loc df col; Ok (cell r pos).

(** [df[df[code_column] == code][description_column].iloc[0]] *)
Definition description_of (df : DataFrame) (code_column description_column : string)
    (code : value) : res value :=
  rs ← select_rows df code_column code;
  dpos ← get_loc df description_column;
  r ← iloc0 rs;
  Ok (cell r dpos).

(** ** Settings, iteration order of sets, and the result *)

Record Settings := {
  code_column_index : Z;
  name_column_index : Z;
  incoming_column_index : Z;
  outgoing_column_index : Z;
  remaining_column_index : Z;
  custom_comparisons : list (string * Z)
}.

Definition default_settings : Settings := {|
  code_column_index := 1;
  name_column_index := 5;
  incoming_column_index := 6;
  outgoing_column_index := 7;
  remaining_column_index := 8;
  custom_comparisons := []
|}.

Definition with_custom (st : Settings) (cs : list (string * Z)) : Settings := {|
  code_column_index := code_column_index st;
  name_column_index := name_column_index st;
  incoming_column_index := incoming_column_index st;
  outgoing_column_index := outgoing_column_index st;
  remaining_column_index := remaining_column_index st;
  custom_comparisons := cs
|}.

(** The order in which [for code in s] yields the elements of a Python set is
    not defined by the language; the comparison is parameterised by it.  An
    iteration gives one order to every set of the same elements, as one run
    does; two sets of the same elements that were built differently may be
    iterated differently, so a statement about two runs that build their sets
    differently takes an iteration for each run. *)
Record iteration := {
  iter :> gset value → list value;
  iter_elements : ∀ s, iter s ≡ₚ elements s
}.

Definition elements_order : iteration :=
  {| iter := elements; iter_elements := λ s, reflexivity (elements s) |}.

Record diff_entry := {
  code : value;
  description : value;
  fields : gmap string (value * value)
}.

Record result := {
  row_count_1 : nat;
  row_count_2 : nat;
  missing_codes : list (value * value);
  extra_codes : list (value * value);
  differences : list diff_entry
}.

(** ** The comparison *)

(** The inner loop of lines 846-850: [diff_fields] starts empty and a later
    field of the same name overwrites an earlier one. *)
Fixpoint diff_fields (df1 df2 : DataFrame) (row1 row2 : list value)
    (columns_to_compare : list (string * string))
    (acc : gmap string (value * value)) : res (gmap string (value * value)) :=
  match columns_to_compare with
  | [] => Ok acc
  | (field_name, col) :: rest =>
      a ← row_get df1 row1 col;
      b ← row_get df2 row2 col;
      diff_fields df1 df2 row1 row2 rest
        (if py_ne a b then <[field_name := (a, b)]> acc else acc)
  end.

(** The body of the loop over the common codes, lines 843-857: [None] when
    [diff_fields] stays empty. *)
Definition compare_code (df1 df2 : DataFrame) (code_column description_column : string)
    (columns_to_compare : list (string * string)) (c : value)
  : res (option diff_entry) :=
  row1 ← first_row df1 code_column c;
  row2 ← first_row df2 code_column c;
  fs ← diff_fields df1 df2 row1 row2 columns_to_compare ∅;
  if decide (fs = ∅) then Ok None
  else
    d ← row_get df1 row1 description_column;
    Ok (Some {| code := c; description := d; fields := fs |}).

(** Lines 834-839: a custom comparison whose index [df1.columns] rejects is
    dropped by the bare [except]. *)
Definition custom_columns (df1 : DataFrame) (custom : list (string * Z))
  : list (string * string) :=
  omap (λ comp, match columns_at df1 comp.2 with
                | Ok col => Some (comp.1, col)
                | Raise _ => None
                end) custom.

(** Lines 819-839. *)
Definition columns_to_compare (st : Settings) (should_compare_gck : bool)
    (df1 : DataFrame) : res (list (string * string)) :=
  gck ← (if should_compare_gck then
           i ← columns_at df1 (incoming_column_index st);
           o ← columns_at df1 (outgoing_column_index st);
           r ← columns_at df1 (remaining_column_index st);
           Ok [("Incoming", i); ("Outgoing", o); ("Remaining", r)]
         else Ok []);
  Ok (gck ++ custom_columns df1 (custom_comparisons st)).

Definition with_description (df : DataFrame) (code_column description_column : string)
    (c : value) : res (value * value) :=
  d ← description_of df code_column description_column c; Ok (c, d).

(** Line 852: only a non-empty [diff_fields] is appended to the result. *)
Definition appended (ds : list (option diff_entry)) : list diff_entry :=
  omap id ds.

(** Lines 816-857: the field comparison over the common codes. *)
Definition compare_common (it : iteration) (st : Settings)
    (should_compare_gck : bool) (df1 df2 : DataFrame)
    (code_column description_column : string) (common_codes : gset value)
  : res (list diff_entry) :=
  cols ← columns_to_compare st should_compare_gck df1;
  ds ← for_each (compare_code df1 df2 code_column description_column cols)
         (it common_codes);
  Ok (appended ds).

Definition calculate_result (it : iteration) (st : Settings)
    (should_compare_gck : bool) (df1 df2 : DataFrame) : res result :=
  code_column ← columns_at df1 (code_column_index st);
  description_column ← columns_at df1 (name_column_index st);
  v1 ← col_values df1 code_column;
  v2 ← col_values df2 code_column;
  let file1_codes : gset value := list_to_set v1 in
  let file2_codes : gset value := list_to_set v2 in
  missing ← for_each (with_description df1 code_column description_column)
               (it (file1_codes ∖ file2_codes));
  extra ← for_each (with_description df2 code_column description_column)
             (it (file2_codes ∖ file1_codes));
  let has_custom := negb (bool_decide (custom_comparisons st = [])) in
  diffs ← (if should_compare_gck || has_custom then
             compare_common it st should_compare_gck df1 df2
               code_column description_column (file1_codes ∩ file2_codes)
           else Ok []);
  Ok {| row_count_1 := length (rows df1);
        row_count_2 := length (rows df2);
        missing_codes := missing;
        extra_codes := extra;
        differences := diffs |}.

(** ** Notions used in the statements *)

(** The key set of [df], read under the label that [df1]'s header holds at
    [code_column_index] (lines 791, 794-795); empty when that fails. *)
Definition key_set (st : Settings) (df1 df : DataFrame) : gset value :=
  match (code_column ← columns_at df1 (code_column_index st);
         col_values df code_column) with
  | Ok vs => list_to_set vs
  | Raise _ => ∅
  end.

(** The key of record [r] of [df]. *)
Definition key_of (st : Settings) (df1 df : DataFrame) (r : list value)
  : res value :=
  cc ← columns_at df1 (code_column_index st); row_get df r cc.

(** The record of [df] matched to key [k] (lines 843-844). *)
Definition matched_row (st : Settings) (df1 df : DataFrame) (k : value)
  : res (list value) :=
  code_column ← columns_at df1 (code_column_index st);
  first_row df code_column k.

(** The description the result carries for key [k] of [df] (lines 800, 806,
    855). *)
Definition key_description (st : Settings) (df1 df : DataFrame) (k : value)
  : res value :=
  code_column ← columns_at df1 (code_column_index st);
  description_column ← columns_at df1 (name_column_index st);
  description_of df code_column description_column k.

(** The two values of column [col] in the records matched to [k]. *)
Definition field_values (st : Settings) (df1 df2 : DataFrame) (k : value)
    (col : string) : res (value * value) :=
  row1 ← matched_row st df1 df1 k;
  row2 ← matched_row st df1 df2 k;
  a ← row_get df1 row1 col;
  b ← row_get df2 row2 col;
  Ok (a, b).

(** Line 815: whether the common codes are compared at all. *)
Definition comparing (st : Settings) (gck : bool) : bool :=
  gck || negb (bool_decide (custom_comparisons st = [])).

(** The active comparison fields, as (field name, column label). *)
Definition active_fields (st : Settings) (should_compare_gck : bool)
    (df1 : DataFrame) : list (string * string) :=
  match columns_to_compare st should_compare_gck df1 with
  | Ok cols => cols
  | Raise _ => []
  end.

(** The field of column [col] holds unequal values in the records matched to
    [k]. *)
Definition differs (st : Settings) (df1 df2 : DataFrame) (k : value)
    (col : string) : Prop :=
  ∃ a b, field_values st df1 df2 k col = Ok (a, b) ∧ py_ne a b = true.

(** [p] is the pair of values of the last field named [n] among [cols] that
    differs for key [k]. *)
Definition last_differing (st : Settings) (df1 df2 : DataFrame) (k : value)
    (cols : list (string * string)) (n : string) (p : value * value) : Prop :=
  ∃ pre col post,
    cols = pre ++ (n, col) :: post ∧
    field_values st df1 df2 k col = Ok p ∧
    py_ne p.1 p.2 = true ∧
    ∀ col', (n, col') ∈ post → ¬ differs st df1 df2 k col'.

(** The comparison of one key under the configuration, lines 843-857 behind
    the column resolution of lines 791-792 and 819-839. *)
Definition compare_key (st : Settings) (gck : bool) (df1 df2 : DataFrame)
    (k : value) : res (option diff_entry) :=
  cc ← columns_at df1 (code_column_index st);
  dc ← columns_at df1 (name_column_index st);
  cols ← columns_to_compare st gck df1;
  compare_code df1 df2 cc dc cols k.

(** Membership of a key in the three collections of a result. *)
Definition only_in_a (res : result) (k : value) : Prop :=
  ∃ d, (k, d) ∈ missing_codes res.

Definition only_in_b (res : result) (k : value) : Prop :=
  ∃ d, (k, d) ∈ extra_codes res.

Definition in_differences (res : result) (k : value) : Prop :=
  ∃ e, e ∈ differences res ∧ code e = k.






(** Two outcomes both raise, or return the same counts and the same members
    of the three collections. *)
Definition same_up_to_order (m1 m2 : res result) : Prop :=
  match m1, m2 with
  | Ok r1, Ok r2 =>
      row_count_1 r1 = row_count_1 r2 ∧
      row_count_2 r1 = row_count_2 r2 ∧
      missing_codes r1 ≡ₚ missing_codes r2 ∧
      extra_codes r1 ≡ₚ extra_codes r2 ∧
      differences r1 ≡ₚ differences r2
  | Raise _, Raise _ => True
  | _, _ => False
  end.

(** ** Auxiliary notions of the proofs *)

(** One step of the inner loop on the two values already read. *)
Definition record_field (acc : gmap string (value * value))
    (x : string * (value * value)) : gmap string (value * value) :=
  if py_ne x.2.1 x.2.2 then <[x.1 := x.2]> acc else acc.

(** The two values of one field in two given rows. *)
Definition read_field (df1 df2 : DataFrame) (row1 row2 : list value)
    (f : string * string) : res (string * (value * value)) :=
  a ← row_get df1 row1 f.2;
  b ← row_get df2 row2 f.2;
  Ok (f.1, (a, b)).

Definition equal_on (n : string) (x : string * (value * value)) : Prop :=
  x.1 = n → py_ne x.2.1 x.2.2 = false.


(** ** Tables and settings of the examples *)

Definition num (z : Z) : value := VNum (Q2Qc (inject_Z z)).

(** A header that fits the default settings: key at 1, description at 5,
    the triad at 6, 7 and 8. *)
Definition hdr : list string :=
  ["No"; "Code"; "A"; "B"; "C"; "Name"; "Incoming"; "Outgoing"; "Remaining"].

Definition tbl (rs : list (list value)) : DataFrame :=
  {| columns := hdr; rows := rs |}.

Definition item (c name : string) (incoming outgoing remaining : Z)
  : list value :=
  [num 1; VStr c; VNaN 0; VNaN 0; VNaN 0; VStr name;
   num incoming; num outgoing; num remaining].

Definition reverse_order : iteration :=
  {| iter := λ s, reverse (elements s);
     iter_elements := λ s, reverse_Permutation (elements s) |}.

Definition table_a : DataFrame :=
  tbl [item "001" "Widget" 10 5 5; item "002" "Gadget" 7 2 5].

Definition table_b : DataFrame :=
  tbl [item "001" "Widget" 12 5 5; item "003" "Gizmo" 1 0 1].

Definition result_ab : result := {|
  row_count_1 := 2;
  row_count_2 := 2;
  missing_codes := [(VStr "002", VStr "Gadget")];
  extra_codes := [(VStr "003", VStr "Gizmo")];
  differences :=
    [{| code := VStr "001"; description := VStr "Widget";
        fields := {[ "Incoming" := (num 10, num 12) ]} |}]
|}.

Definition table_a3 : DataFrame :=
  tbl [item "001" "Widget" 10 5 5; item "002" "Gadget" 7 2 5;
       item "004" "Doohickey" 3 3 0].

Definition table_a_dup : DataFrame :=
  tbl [item "001" "Widget" 10 5 5; item "002" "Gadget" 7 2 5;
       item "001" "Widget (old)" 99 9 9].









Definition table_blank : DataFrame :=
  tbl [[num 1; VStr "001"; VNaN 0; VNaN 0; VNaN 0; VStr "Widget";
        VNaN 0; num 5; num 5]].

Definition result_blank : result := {|
  row_count_1 := 1;
  row_count_2 := 1;
  missing_codes := [];
  extra_codes := [];
  differences :=
    [{| code := VStr "001"; description := VStr "Widget";
        fields := {[ "Incoming" := (VNaN 0, VNaN 0) ]} |}]
|}.

Definition table_three_columns : DataFrame :=
  {| columns := ["No"; "Code"; "Name"];
     rows := [[num 1; VStr "001"; VStr "Widget"]] |}.

Definition table_no_code : DataFrame :=
  {| columns := ["No"; "Article"; "Name"];
     rows := [[num 1; VStr "001"; VStr "Widget"]] |}.

Definition settings_three : Settings := {|
  code_column_index := 1;
  name_column_index := 2;
  incoming_column_index := 6;
  outgoing_column_index := 7;
  remaining_column_index := 8;
  custom_comparisons := []
|}.

Definition table_code_name : DataFrame :=
  {| columns := ["Code"; "Name"];
     rows := [[VStr "001"; VStr "Widget"]; [VStr "003"; VStr "Gizmo"]] |}.

Definition table_b_eight_columns : DataFrame :=
  {| columns := ["No"; "Code"; "A"; "B"; "C"; "Name"; "Incoming"; "Outgoing"];
     rows := [[num 1; VStr "001"; VNaN 0; VNaN 0; VNaN 0; VStr "Widget";
               num 10; num 5]] |}.

(** ** Further notions: entries with the two tables exchanged *)

(** The entry of the same key when the two tables change places: each pair
    (value in A, value in B) is turned round. *)
Definition exchanged (e' e : diff_entry) : Prop :=
  code e' = code e ∧ fields e' = prod_swap <$> fields e.

Definition is_nan (v : value) : Prop := ∃ i, v = VNaN i.

Definition table_blank_key : DataFrame :=
  tbl [item "001" "Widget" 10 5 5;
       [num 2; VNaN 0; VNaN 0; VNaN 0; VNaN 0; VStr "Unnamed"; num 1; num 1; num 0]].

#[global] Instance is_nan_dec v : Decision (is_nan v).
Proof.
  destruct v as [q|s|i]; [right|right|left]; unfold is_nan;
    [by intros [? ?]|by intros [? ?]|by exists i].
Defined.

(** The result of [table_b] against [table_a]. *)
Definition result_ba : result := {|
  row_count_1 := 2;
  row_count_2 := 2;
  missing_codes := [(VStr "003", VStr "Gizmo")];
  extra_codes := [(VStr "002", VStr "Gadget")];
  differences :=
    [{| code := VStr "001"; description := VStr "Widget";
        fields := {[ "Incoming" := (num 12, num 10) ]} |}]
|}.

(** ** Reading the two files: [compare_files], lines 745-775 *)

(** A sheet as [pd.read_excel(path, header=None)] returns it: all its rows,
    the header row and the closing row included. *)
Definition sheet := list (list value).

(** [df.iloc[:-1]] *)
Definition drop_last {A} (l : list A) : list A := take (length l - 1) l.

(** The label a header cell gives.  Header cells are texts; any other cell
    is outside the embedding, see [wf_sheet]. *)
Definition label_of (v : value) : string :=
  match v with
  | VStr s => s
  | _ => ""
  end.

Definition is_text (v : value) : Prop := ∃ s, v = VStr s.

#[global] Instance is_text_dec v : Decision (is_text v).
Proof.
  destruct v as [q|s|i]; [right|left|right]; unfold is_text;
    [by intros [? ?]|by exists s|by intros [? ?]].
Defined.

(** Lines 756-769 for one sheet: the last row is removed, the first of the
    remaining rows becomes the header ([.iloc[0]] raises on an empty frame)
    and is removed from the data. *)
Definition prepare (s : sheet) : res DataFrame :=
  let body := drop_last s in
  header ← iloc0 body;
  Ok {| columns := label_of <$> header; rows := drop 1 body |}.

(** The sheets the embedding covers: rectangular, the header row made of
    pairwise distinct texts. *)
Definition wf_sheet (s : sheet) : Prop :=
  match s with
  | [] => True
  | header :: _ =>
      Forall is_text header ∧ NoDup (label_of <$> header) ∧
      Forall (λ r, length r = length header) s
  end.

#[global] Instance wf_sheet_dec s : Decision (wf_sheet s).
Proof. destruct s; simpl; apply _. Defined.

(** Lines 752-771: the body of the [try]. *)
Definition compare_sheets (it : iteration) (st : Settings) (gck : bool)
    (s1 s2 : sheet) : res result :=
  df1 ← prepare s1;
  df2 ← prepare s2;
  calculate_result it st gck df1 df2.

(** What [compare_files] ends in: one of its two error boxes, or the result
    window.  An exception of the reader and an exception of the comparison
    are caught by the same [except]. *)
Inductive failure := ReadFailed | Raised (e : exn).

Inductive shown :=
| SelectBothFiles
| ProcessingError (f : failure)
| ResultWindow (r : result).

(** [not path] for a path that is [None] or a string. *)
Definition not_selected (path : option string) : bool :=
  match path with
  | None => true
  | Some p => bool_decide (p = "")
  end.

(** [compare_files]; [read_excel] is the reader, [None] when it raises. *)
Definition compare_files (it : iteration) (st : Settings) (gck : bool)
    (read_excel : string → option sheet)
    (file1_path file2_path : option string) : shown :=
  if not_selected file1_path || not_selected file2_path then SelectBothFiles
  else
    match read_excel (default "" file1_path) with
    | None => ProcessingError ReadFailed
    | Some s1 =>
        match read_excel (default "" file2_path) with
        | None => ProcessingError ReadFailed
        | Some s2 =>
            match compare_sheets it st gck s1 s2 with
            | Ok r => ResultWindow r
            | Raise e => ProcessingError (Raised e)
            end
        end
    end.

(** ** The result window: [open_result_window], lines 934-986 *)

(** The text of the window, one item per [text.insert]; how a value is
    printed is left open, and the field lines of one product are one item
    holding its mapping. *)
Inductive report_line :=
| DoubleRule
| SingleRule
| BlankLine
| File1RowCount (n : nat)
| File2RowCount (n : nat)
| RowDifference (n : nat)
| OnlyInFile1Header (n : nat)
| OnlyInFile2Header (n : nat)
| DetailedHeader (n : nat)
| CodeLine (c description : value)
| FieldLines (fs : gmap string (value * value))
| NoDifferencesFound.

Definition code_line (p : value * value) : report_line := CodeLine p.1 p.2.

Definition detailed_item (item : diff_entry) : list report_line :=
  [CodeLine (code item) (description item); FieldLines (fields item); BlankLine].

Definition is_empty {A} (l : list A) : bool :=
  match l with
  | [] => true
  | _ => false
  end.

Definition open_result_window (result : result) : list report_line :=
  [DoubleRule;
   File1RowCount (row_count_1 result);
   File2RowCount (row_count_2 result);
   RowDifference
     (Z.abs_nat (Z.of_nat (row_count_1 result) - Z.of_nat (row_count_2 result)));
   DoubleRule; BlankLine]
  ++ (if is_empty (missing_codes result) then []
      else [OnlyInFile1Header (length (missing_codes result)); SingleRule]
           ++ (code_line <$> missing_codes result) ++ [BlankLine])
  ++ (if is_empty (extra_codes result) then []
      else [OnlyInFile2Header (length (extra_codes result)); SingleRule]
           ++ (code_line <$> extra_codes result) ++ [BlankLine])
  ++ (if is_empty (differences result) then []
      else [DetailedHeader (length (differences result)); SingleRule]
           ++ (differences result ≫= detailed_item))
  ++ (if is_empty (missing_codes result) && is_empty (extra_codes result)
         && is_empty (differences result)
      then [NoDifferencesFound] else []).

(** Sheets of the examples: a header row, records, and a closing row. *)
Definition sheet_a : sheet :=
  (VStr <$> hdr) :: rows table_a ++ [item "Total" "" 17 7 10].

Definition sheet_b : sheet :=
  (VStr <$> hdr) :: rows table_b ++ [item "Total" "" 13 5 6].

(** ** Python's text operations used by the settings window *)

Module Py.

(** [str.isspace] on an ASCII character: tab to carriage return, the four
    separators 28 to 31, and the space. *)
Definition is_space (c : ascii) : bool :=
  let n := nat_of_ascii c in
  ((9 <=? n)%nat && (n <=? 13)%nat) || ((28 <=? n)%nat && (n <=? 32)%nat).

Definition is_digit (c : ascii) : bool :=
  let n := nat_of_ascii c in (48 <=? n)%nat && (n <=? 57)%nat.

Fixpoint lstrip (s : string) : string :=
  match s with
  | EmptyString => EmptyString
  | String c s' => if is_space c then lstrip s' else s
  end.

Fixpoint rstrip (s : string) : string :=
  match s with
  | EmptyString => EmptyString
  | String c s' =>
      match rstrip s' with
      | EmptyString => if is_space c then EmptyString else String c EmptyString
      | t => String c t
      end
  end.

(** [s.strip()] *)
Definition strip (s : string) : string := lstrip (rstrip s).

Fixpoint all_digits (s : string) : bool :=
  match s with
  | EmptyString => true
  | String c s' => is_digit c && all_digits s'
  end.

(** [s.isdigit()]: at least one character, and digits only. *)
Definition isdigit (s : string) : bool :=
  match s with
  | EmptyString => false
  | _ => all_digits s
  end.

(** [int(s)] for a text of digits; [None] stands for ValueError. *)
Definition int (s : string) : option Z :=
  match NilZero.uint_of_string s with
  | Some d => Some (Z.of_N (N.of_uint d))
  | None => None
  end.

(** [str(z)] *)
Definition str (z : Z) : string := NilZero.string_of_int (Z.to_int z).

(** The texts the embedding covers: ASCII characters, and no more of them
    than [int] and [str] convert (4300 digits). *)
Fixpoint is_ascii (s : string) : bool :=
  match s with
  | EmptyString => true
  | String c s' => (nat_of_ascii c <? 128)%nat && is_ascii s'
  end.

Definition typed (s : string) : Prop :=
  is_ascii s = true ∧ (String.length s ≤ 4300)%nat.

#[global] Instance typed_dec s : Decision (typed s).
Proof. unfold typed. apply _. Defined.

(** [s.split(sep)] for a separator of one character. *)
Fixpoint split (sep : ascii) (s : string) : list string :=
  match s with
  | EmptyString => [EmptyString]
  | String c s' =>
      if Ascii.eqb c sep then EmptyString :: split sep s'
      else
        match split sep s' with
        | t :: ts => String c t :: ts
        | [] => [String c EmptyString]
        end
  end.

(** [sep.join(l)] *)
Fixpoint join (sep : ascii) (l : list string) : string :=
  match l with
  | [] => EmptyString
  | t :: ts =>
      match ts with
      | [] => t
      | _ => (t ++ String sep (join sep ts))%string
      end
  end.

End Py.

(** ** The stored settings: [SettingsManager], lines 8-65 *)

(** A stored value: a column index, or the list of custom comparisons. *)
Inductive setting :=
| SInt (z : Z)
| SCustom (cs : list (string * Z)).

#[global] Instance setting_eq_dec : EqDecision setting.
Proof. solve_decision. Defined.

Module SettingsManager.

Definition default_settings : gmap string setting :=
  list_to_map
    [("code_column_index", SInt 1);
     ("name_column_index", SInt 5);
     ("incoming_column_index", SInt 6);
     ("outgoing_column_index", SInt 7);
     ("remaining_column_index", SInt 8);
     ("custom_comparisons", SCustom [])].

(** [self.settings.get(key, self.default_settings.get(key))] *)
Definition get (settings : gmap string setting) (key : string)
  : option setting :=
  match settings !! key with
  | Some v => Some v
  | None => default_settings !! key
  end.

Definition set (settings : gmap string setting) (key : string)
    (value : setting) : gmap string setting :=
  <[key := value]> settings.

Definition reset_to_defaults (settings : gmap string setting)
  : gmap string setting :=
  default_settings.

End SettingsManager.

(** The settings as [calculate_result] reads them (lines 788-789, 811,
    823-825); [None] when a key holds a value of the other kind. *)
Definition index_setting (settings : gmap string setting) (key : string)
  : option Z :=
  match SettingsManager.get settings key with
  | Some (SInt z) => Some z
  | _ => None
  end.

(** [get('custom_comparisons') or []] *)
Definition custom_setting (settings : gmap string setting)
  : option (list (string * Z)) :=
  match SettingsManager.get settings "custom_comparisons" with
  | Some (SCustom cs) => Some cs
  | Some (SInt 0) => Some []
  | _ => None
  end.

Definition settings_in_use (settings : gmap string setting) : option Settings :=
  c ← index_setting settings "code_column_index";
  n ← index_setting settings "name_column_index";
  i ← index_setting settings "incoming_column_index";
  o ← index_setting settings "outgoing_column_index";
  r ← index_setting settings "remaining_column_index";
  cs ← custom_setting settings;
  Some {| code_column_index := c; name_column_index := n;
          incoming_column_index := i; outgoing_column_index := o;
          remaining_column_index := r; custom_comparisons := cs |}.

(** ** The settings window: [SettingsWindow], lines 221-287 and 378-455 *)

(** The message box [save_settings] ends in. *)
Inductive message :=
| InvalidValue (key : string)
| InvalidCustomIndex (name : string)
| MissingInformation
| NegativeIndex
| SettingsSaved
| SaveFailed
| UnexpectedError.

#[global] Instance message_eq_dec : EqDecision message.
Proof. solve_decision. Defined.

Inductive checked (A : Type) : Type :=
| Accepted (a : A)
| Rejected (m : message).
Arguments Accepted {A} a.
Arguments Rejected {A} m.

Module SettingsWindow.

(** The keys of [settings_config], in the order of the entry fields. *)
Definition settings_config : list string :=
  ["code_column_index"; "name_column_index"; "incoming_column_index";
   "outgoing_column_index"; "remaining_column_index"].

(** The text an entry field is filled with, line 247.  The five keys hold
    indices; another value is outside the embedding. *)
Definition entry_text (v : option setting) : string :=
  match v with
  | Some (SInt z) => Py.str z
  | _ => ""
  end.

(** [build_ui]: the entry fields (lines 232-248) and the rows of the custom
    comparisons (lines 284-287), each with the text put into it. *)
Definition build_ui (settings : gmap string setting)
  : list (string * string) * list (string * string) :=
  ((λ key, (key, entry_text (SettingsManager.get settings key)))
     <$> settings_config,
   (λ comp : string * Z, (comp.1, Py.str comp.2))
     <$> default [] (custom_setting settings)).

(** Lines 383-392. *)
Fixpoint read_entries (entries : list (string * string))
  : checked (list (string * Z)) :=
  match entries with
  | [] => Accepted []
  | (key, text) :: rest =>
      let value := Py.strip text in
      if negb (Py.isdigit value) then Rejected (InvalidValue key)
      else
        match Py.int value with
        | None => Rejected UnexpectedError
        | Some z =>
            match read_entries rest with
            | Accepted new_settings => Accepted ((key, z) :: new_settings)
            | Rejected m => Rejected m
            end
        end
  end.

(** Lines 395-418. *)
Fixpoint read_custom (custom_entries : list (string * string))
  : checked (list (string * Z)) :=
  match custom_entries with
  | [] => Accepted []
  | (name_text, index_text) :: rest =>
      let name := Py.strip name_text in
      let index := Py.strip index_text in
      if negb (bool_decide (name = "")) && negb (bool_decide (index = ""))
      then
        if negb (Py.isdigit index) then Rejected (InvalidCustomIndex name)
        else
          match Py.int index with
          | None => Rejected UnexpectedError
          | Some z =>
              match read_custom rest with
              | Accepted custom_comparisons =>
                  Accepted ((name, z) :: custom_comparisons)
              | Rejected m => Rejected m
              end
          end
      else if negb (bool_decide (name = "")) || negb (bool_decide (index = ""))
      then Rejected MissingInformation
      else read_custom rest
  end.

(** Lines 431-434. *)
Definition store (settings : gmap string setting)
    (new_settings custom_comparisons : list (string * Z))
  : gmap string setting :=
  SettingsManager.set
    (foldl (λ s kv, SettingsManager.set s kv.1 (SInt kv.2)) settings
       new_settings)
    "custom_comparisons" (SCustom custom_comparisons).

(** [save_settings]: the message shown and the settings the manager holds
    afterwards; [written] tells whether the settings file could be written. *)
Definition save_settings (settings : gmap string setting)
    (entries custom_entries : list (string * string)) (written : bool)
  : message * gmap string setting :=
  match read_entries entries with
  | Rejected m => (m, settings)
  | Accepted new_settings =>
      match read_custom custom_entries with
      | Rejected m => (m, settings)
      | Accepted custom_comparisons =>
          if existsb (λ v, bool_decide (v < 0))
               (new_settings.*2 ++ custom_comparisons.*2)
          then (NegativeIndex, settings)
          else
            (if written then SettingsSaved else SaveFailed,
             store settings new_settings custom_comparisons)
      end
  end.

(** [reset_to_defaults], lines 361-376: [confirmed] is the answer to the
    question box; the result is the stored settings, the entry fields and the
    rows of the custom comparisons afterwards. *)
Definition reset_to_defaults (confirmed : bool)
    (settings : gmap string setting)
    (entries custom_entries : list (string * string))
  : gmap string setting * list (string * string) * list (string * string) :=
  if confirmed then
    let settings' := SettingsManager.reset_to_defaults settings in
    (settings',
     (λ e : string * string,
        (e.1, entry_text (SettingsManager.get settings' e.1))) <$> entries,
     [])
  else (settings, entries, custom_entries).

End SettingsWindow.

(** ** Notions for the settings window *)

(** A custom comparison as the window stores it: named, the name without
    blanks around it, the index not negative. *)
Definition valid_custom (c : string * Z) : Prop :=
  c.1 ≠ "" ∧ Py.strip c.1 = c.1 ∧ (0 ≤ c.2)%Z.

Definition valid_settings (st : Settings) : Prop :=
  (0 ≤ code_column_index st)%Z ∧ (0 ≤ name_column_index st)%Z ∧
  (0 ≤ incoming_column_index st)%Z ∧ (0 ≤ outgoing_column_index st)%Z ∧
  (0 ≤ remaining_column_index st)%Z ∧
  Forall valid_custom (custom_comparisons st).

#[global] Instance valid_settings_dec st : Decision (valid_settings st).
Proof. unfold valid_settings, valid_custom. apply _. Defined.

(** The settings whose texts the embedding covers, see [Py.typed]. *)
Definition printable (st : Settings) : Prop :=
  Py.typed (Py.str (code_column_index st)) ∧
  Py.typed (Py.str (name_column_index st)) ∧
  Py.typed (Py.str (incoming_column_index st)) ∧
  Py.typed (Py.str (outgoing_column_index st)) ∧
  Py.typed (Py.str (remaining_column_index st)) ∧
  Forall (λ c : string * Z, Py.typed c.1 ∧ Py.typed (Py.str c.2))
    (custom_comparisons st).

#[global] Instance printable_dec st : Decision (printable st).
Proof. unfold printable. apply _. Defined.

Definition texts_typed (entries custom_entries : list (string * string))
  : Prop :=
  Forall (λ e, Py.typed e.2) entries ∧
  Forall (λ r, Py.typed r.1 ∧ Py.typed r.2) custom_entries.

#[global] Instance texts_typed_dec entries custom_entries :
  Decision (texts_typed entries custom_entries).
Proof. unfold texts_typed. apply _. Defined.

(** The five column indices, in the order of the entry fields. *)
Definition index_settings (st : Settings) : list Z :=
  [code_column_index st; name_column_index st; incoming_column_index st;
   outgoing_column_index st; remaining_column_index st].

(** A row of the custom comparisons with a name in it. *)
Definition named (r : string * string) : Prop := Py.strip r.1 ≠ "".

#[global] Instance named_dec r : Decision (named r).
Proof. unfold named. apply _. Defined.

(** The validation passed: the settings were stored, written or not. *)
Definition stored (m : message) : Prop := m = SettingsSaved ∨ m = SaveFailed.

(** Entry fields as a user may leave them, and a stored dictionary. *)
Definition entries_typed : list (string * string) :=
  [("code_column_index", " 2 "); ("name_column_index", "007");
   ("incoming_column_index", "6"); ("outgoing_column_index", "7");
   ("remaining_column_index", "8")].

Definition rows_typed : list (string * string) :=
  [(" Region ", "9"); ("", " "); ("Stock", "6")].

Definition settings_typed : Settings := {|
  code_column_index := 2;
  name_column_index := 7;
  incoming_column_index := 6;
  outgoing_column_index := 7;
  remaining_column_index := 8;
  custom_comparisons := [("Region", 9); ("Stock", 6)]
|}.

Definition settings_file : gmap string setting :=
  {[ "code_column_index" := SInt 2;
     "custom_comparisons" := SCustom [("Region", 9)] ]}.

Definition settings_of_file : Settings := {|
  code_column_index := 2;
  name_column_index := 5;
  incoming_column_index := 6;
  outgoing_column_index := 7;
  remaining_column_index := 8;
  custom_comparisons := [("Region", 9)]
|}.

(** The key column of [df], read as [key_set] reads it, one key per record. *)
Definition keys (st : Settings) (df1 df : DataFrame) : list value :=
  match (code_column ← columns_at df1 (code_column_index st);
         col_values df code_column) with
  | Ok vs => vs
  | Raise _ => []
  end.

(** A settings file edited by hand. *)
Definition settings_edited : gmap string setting :=
  {[ "outgoing_column_index" := SInt (-1) ]}.

Definition settings_of_edited : Settings := {|
  code_column_index := 1;
  name_column_index := 5;
  incoming_column_index := 6;
  outgoing_column_index := -1;
  remaining_column_index := 8;
  custom_comparisons := []
|}.

(** ** File selection: [select_file1] and [select_file2], lines 725-743 *)

(** The two paths of the application and the texts of their labels. *)
Record ExcelComparisonApp := {
  file1_path : option string;
  file1_label : string;
  file2_path : option string;
  file2_label : string
}.

(** [file_path] is the answer of the file dialog, empty when the dialog was
    cancelled. *)
Definition select_file1 (file_path : string) (app : ExcelComparisonApp)
  : res ExcelComparisonApp :=
  if bool_decide (file_path = "") then Ok app
  else
    label ← py_index (Py.split "/" file_path) (-1);
    Ok {| file1_path := Some file_path; file1_label := label;
          file2_path := file2_path app; file2_label := file2_label app |}.

Definition select_file2 (file_path : string) (app : ExcelComparisonApp)
  : res ExcelComparisonApp :=
  if bool_decide (file_path = "") then Ok app
  else
    label ← py_index (Py.split "/" file_path) (-1);
    Ok {| file1_path := file1_path app; file1_label := file1_label app;
          file2_path := Some file_path; file2_label := label |}.

(** The characters of a text. *)
Fixpoint chars (s : string) : list ascii :=
  match s with
  | EmptyString => []
  | String c s' => c :: chars s'
  end.

(** The application as it starts, lines 466-467. *)
Definition app_started : ExcelComparisonApp := {|
  file1_path := None; file1_label := "No file selected";
  file2_path := None; file2_label := "No file selected"
|}.

(** ** The key as the specification defines it *)

(** "The value found at key_index in a record".  The index is read as Python
    reads one; for an index that is not negative this is the position
    counted from 0. *)
Definition key_at_index (st : Settings) (r : list value) : option value :=
  match py_index r (code_column_index st) with
  | Ok v => Some v
  | Raise _ => None
  end.

(** "Build the key set of each table by extracting key_index from every
    record." *)
Definition key_set_at_index (st : Settings) (df : DataFrame) : gset value :=
  list_to_set (omap (key_at_index st) (rows df)).


(** A table B arranged differently from [hdr]: the label "Code" stands at
    position 0, and position 1 holds an older code. *)
Definition table_b_rearranged : DataFrame :=
  {| columns := ["Code"; "Old code"; "Name"];
     rows := [[VStr "003"; VStr "002"; VStr "Gizmo"]] |}.

Definition result_rearranged : result := {|
  row_count_1 := 2;
  row_count_2 := 1;
  missing_codes := [(VStr "001", VStr "Widget"); (VStr "002", VStr "Gadget")];
  extra_codes := [(VStr "003", VStr "Gizmo")];
  differences := []
|}.

Definition result_code_name : result := {|
  row_count_1 := 2;
  row_count_2 := 2;
  missing_codes := [(VStr "002", VStr "Gadget")];
  extra_codes := [(VStr "003", VStr "Gizmo")];
  differences := []
|}.

(** [table_a3] against [table_a]: the keys 001 and 002 are in both tables
    with equal fields. *)
Definition result_a3 : result := {|
  row_count_1 := 3;
  row_count_2 := 2;
  missing_codes := [(VStr "004", VStr "Doohickey")];
  extra_codes := [];
  differences := []
|}.

(** No active field of column [col] differs for key [k], as a test. *)
Definition equal_field (st : Settings) (df1 df2 : DataFrame) (k : value)
    (col : string) : bool :=
  match field_values st df1 df2 k col with
  | Ok p => negb (py_ne p.1 p.2)
  | Raise _ => true
  end.

(** * Properties *)

(** ** The error monad *)

Lemma bind_Ok {A B} (m : res A) (f : A → res B) b :
  m ≫= f = Ok b ↔ ∃ a, m = Ok a ∧ f a = Ok b.
Proof.
  destruct m as [a|e]; simpl; split.
  - eauto.
  - by intros (a' & [= <-] & ?).
  - done.
  - by intros (? & ? & ?).
Qed.

Ltac inv_res :=
  repeat match goal with
  | H : _ ≫= _ = Ok _ |- _ =>
      apply bind_Ok in H; destruct H as (? & ? & H)
  | H : Ok _ = Ok _ |- _ => injection H as H; try subst
  | H : Raise _ = Ok _ |- _ => discriminate H
  | H : mret _ = Ok _ |- _ => injection H as H; try subst
  end.

Ltac use_res :=
  repeat match goal with
  | H : ?m = Ok _ |- context [?m] => rewrite H; simpl
  | H : ?m = Raise _ |- context [?m] => rewrite H; simpl
  end.

Section for_each.
Context {A B : Type} (f : A → res B).

Lemma for_each_Ok l ys :
  for_each f l = Ok ys ↔ Forall2 (λ x y, f x = Ok y) l ys.
Proof.
  revert ys. induction l as [|x l IH]; intros ys; simpl.
  - split; [intros [= <-]; constructor | by inversion 1].
  - split.
    + intros H. inv_res. constructor; [done|]. by apply IH.
    + inversion 1 as [|? y ? ys' Hx Hl]; subst.
      rewrite Hx. simpl. apply IH in Hl. by rewrite Hl.
Qed.


Lemma for_each_elem l ys y :
  for_each f l = Ok ys → y ∈ ys → ∃ x, x ∈ l ∧ f x = Ok y.
Proof.
  rewrite for_each_Ok. intros HF Hy.
  apply list_elem_of_lookup in Hy as [i Hi].
  destruct (Forall2_lookup_r _ _ _ _ _ HF Hi) as (x & Hx & Hfx).
  exists x. split; [|done]. apply list_elem_of_lookup; eauto.
Qed.

Lemma for_each_image l ys x :
  for_each f l = Ok ys → x ∈ l → ∃ y, y ∈ ys ∧ f x = Ok y.
Proof.
  rewrite for_each_Ok. intros HF Hx.
  apply list_elem_of_lookup in Hx as [i Hi].
  destruct (Forall2_lookup_l _ _ _ _ _ HF Hi) as (y & Hy & Hfx).
  exists y. split; [|done]. apply list_elem_of_lookup; eauto.
Qed.

Lemma for_each_perm l l' ys :
  l ≡ₚ l' → for_each f l = Ok ys →
  ∃ ys', for_each f l' = Ok ys' ∧ ys ≡ₚ ys'.
Proof.
  intros Hp. revert ys.
  induction Hp as [|x l l' Hp IH|x y l|l l' l'' Hp1 IH1 Hp2 IH2];
    intros ys; simpl.
  - intros [= <-]. by exists [].
  - intros H. inv_res.
    destruct (IH _ ltac:(eassumption)) as (ys' & -> & Hys).
    use_res. eexists. split; [done|]. by constructor.
  - intros H. inv_res. use_res.
    eexists. split; [done|]. apply Permutation_swap.
  - intros H. destruct (IH1 _ H) as (ys' & H' & ?).
    destruct (IH2 _ H') as (ys'' & ? & ?).
    exists ys''. split; [done|]. by etrans.
Qed.
End for_each.

(** ** Iteration, positions and labels *)

Lemma iter_elem (it : iteration) (s : gset value) x : x ∈ it s ↔ x ∈ s.
Proof. rewrite (iter_elements it s). apply elem_of_elements. Qed.

Lemma iter_difference (it : iteration) (s1 s2 : gset value) x :
  x ∈ it (s1 ∖ s2) ↔ x ∈ s1 ∧ x ∉ s2.
Proof. by rewrite iter_elem, elem_of_difference. Qed.

Lemma iter_intersection (it : iteration) (s1 s2 : gset value) x :
  x ∈ it (s1 ∩ s2) ↔ x ∈ s1 ∧ x ∈ s2.
Proof. by rewrite iter_elem, elem_of_intersection. Qed.

Lemma py_index_Ok {A} (l : list A) i x :
  py_index l i = Ok x →
  x ∈ l ∧ - Z.of_nat (length l) ≤ i < Z.of_nat (length l).
Proof.
  unfold py_index. repeat case_bool_decide; try done.
  - destruct (l !! _) eqn:E; intros [= <-].
    split; [by eapply list_elem_of_lookup_2 | lia].
  - destruct (l !! _) eqn:E; intros [= <-].
    split; [by eapply list_elem_of_lookup_2 | lia].
Qed.

Lemma py_index_invalid {A} (l : list A) i :
  ¬ (- Z.of_nat (length l) ≤ i < Z.of_nat (length l)) →
  py_index l i = Raise IndexError.
Proof.
  intros Hi. destruct (py_index l i) as [x|[]] eqn:E.
  - apply py_index_Ok in E as [_ ?]. lia.
  - done.
  - unfold py_index in E. repeat case_bool_decide; try done;
      by destruct (l !! _).
Qed.

Lemma py_index_valid {A} (l : list A) i :
  - Z.of_nat (length l) ≤ i < Z.of_nat (length l) →
  ∃ x, py_index l i = Ok x.
Proof.
  intros Hi. unfold py_index. cbv zeta.
  destruct (bool_decide_reflect (i < 0)); rewrite bool_decide_eq_true_2 by lia.
  - destruct (lookup_lt_is_Some_2 l (Z.to_nat (Z.of_nat (length l) + i)))
      as [x ->]; [lia|eauto].
  - destruct (lookup_lt_is_Some_2 l (Z.to_nat i)) as [x ->]; [lia|eauto].
Qed.

Lemma get_loc_elem df c :
  c ∈ columns df → ∃ pos, get_loc df c = Ok pos.
Proof.
  intros Hc. unfold get_loc.
  destruct (list_find_elem_of (λ x, x = c) (columns df) c Hc eq_refl)
    as [[i y] ->]. eauto.
Qed.

Lemma get_loc_absent df c :
  c ∉ columns df → get_loc df c = Raise KeyError.
Proof.
  intros Hc. unfold get_loc.
  destruct (list_find _ _) as [[i y]|] eqn:E; [|done].
  apply list_find_Some in E as (E & -> & _).
  destruct Hc. by eapply list_elem_of_lookup_2.
Qed.

Lemma columns_at_get_loc df i c :
  columns_at df i = Ok c → ∃ pos, get_loc df c = Ok pos.
Proof. intros H. apply py_index_Ok in H as [? _]. by apply get_loc_elem. Qed.

(** ** Anatomy of a successful run *)

Lemma calculate_result_Ok it st gck df1 df2 res :
  calculate_result it st gck df1 df2 = Ok res →
  ∃ cc dc v1 v2,
    columns_at df1 (code_column_index st) = Ok cc ∧
    columns_at df1 (name_column_index st) = Ok dc ∧
    col_values df1 cc = Ok v1 ∧
    col_values df2 cc = Ok v2 ∧
    for_each (with_description df1 cc dc)
      (it (list_to_set v1 ∖ list_to_set v2)) = Ok (missing_codes res) ∧
    for_each (with_description df2 cc dc)
      (it (list_to_set v2 ∖ list_to_set v1)) = Ok (extra_codes res) ∧
    (if gck || negb (bool_decide (custom_comparisons st = []))
     then ∃ cols ds,
         columns_to_compare st gck df1 = Ok cols ∧
         for_each (compare_code df1 df2 cc dc cols)
           (it (list_to_set v1 ∩ list_to_set v2)) = Ok ds ∧
         differences res = appended ds
     else differences res = []) ∧
    row_count_1 res = length (rows df1) ∧
    row_count_2 res = length (rows df2).
Proof.
  unfold calculate_result. intros H. cbv zeta in H. inv_res.
  do 4 eexists. repeat (split; [eassumption|]).
  split; [|done]. simpl.
  destruct (gck || _); [|by inv_res].
  unfold compare_common in *. inv_res. eauto.
Qed.

Lemma elem_of_middle {A} (x : A) pre post : x ∈ pre ++ x :: post.
Proof. apply elem_of_app. right. by left. Qed.

(** ** The field mapping of one key *)

Lemma diff_fields_fold df1 df2 row1 row2 cols acc m :
  diff_fields df1 df2 row1 row2 cols acc = Ok m ↔
  ∃ ps, for_each (read_field df1 df2 row1 row2) cols = Ok ps ∧
        m = foldl record_field acc ps.
Proof.
  revert acc m. unfold read_field.
  induction cols as [|[n col] cols IH]; intros acc m; simpl.
  - split.
    + intros [= <-]. by exists [].
    + by intros (ps & [= <-] & ->).
  - split.
    + intros H. inv_res. apply IH in H as (ps & Hps & ->).
      use_res. by eexists.
    + intros (ps & H & ->). inv_res. use_res.
      apply IH. eauto.
Qed.

Lemma record_field_lookup ps acc n p :
  foldl record_field acc ps !! n = Some p ↔
  (∃ pre post, ps = pre ++ (n, p) :: post ∧ py_ne p.1 p.2 = true ∧
               Forall (equal_on n) post) ∨
  (acc !! n = Some p ∧ Forall (equal_on n) ps).
Proof.
  revert acc. induction ps as [|[n' p'] ps IH]; intros acc; simpl.
  - split; [by right|].
    intros [(pre & post & E & _)|[? _]]; [by destruct pre|done].
  - rewrite IH. unfold record_field at 1. simpl.
    destruct (py_ne p'.1 p'.2) eqn:Hne.
    + split.
      * intros [(pre & post & -> & ? & ?)|[Hl HF]].
        { left. by exists ((n', p') :: pre), post. }
        destruct (decide (n' = n)) as [->|Hn].
        { rewrite lookup_insert_eq in Hl. injection Hl as ->.
          left. by exists [], ps. }
        rewrite lookup_insert_ne in Hl by done.
        right. split; [done|]. constructor; [|done]. by intros ?.
      * intros [(pre & post & E & ? & ?)|[Hl HF]].
        { destruct pre as [|y pre]; simpl in E.
          - injection E as -> -> ->. right. by rewrite lookup_insert_eq.
          - injection E as <- ->. left. by exists pre, post. }
        apply Forall_cons in HF as [Hx HF].
        right. split; [|done].
        rewrite lookup_insert_ne; [done|].
        intros ->. specialize (Hx eq_refl). simpl in Hx. congruence.
    + split.
      * intros [(pre & post & -> & ? & ?)|[Hl HF]].
        { left. by exists ((n', p') :: pre), post. }
        right. split; [done|]. constructor; [|done]. by intros ?.
      * intros [(pre & post & E & ? & ?)|[Hl HF]].
        { destruct pre as [|y pre]; simpl in E.
          - injection E as -> -> ->. congruence.
          - injection E as <- ->. left. by exists pre, post. }
        apply Forall_cons in HF as [Hx HF]. by right.
Qed.

Lemma record_field_is_Some ps acc n p :
  (n, p) ∈ ps → py_ne p.1 p.2 = true →
  is_Some (foldl record_field acc ps !! n).
Proof.
  intros Hin Hne. induction ps as [|x ps IH] using rev_ind;
    [by inversion Hin|].
  rewrite foldl_app. simpl.
  apply elem_of_app in Hin as [Hin|Hin%list_elem_of_singleton].
  - specialize (IH Hin). unfold record_field at 1.
    destruct (py_ne x.2.1 x.2.2); [|done].
    destruct (decide (x.1 = n)) as [->|].
    + rewrite lookup_insert_eq. eauto.
    + by rewrite lookup_insert_ne.
  - subst x. unfold record_field at 1. simpl. rewrite Hne.
    rewrite lookup_insert_eq. eauto.
Qed.

Lemma record_field_empty ps :
  foldl record_field ∅ ps = ∅ ↔
  Forall (λ x, py_ne x.2.1 x.2.2 = false) ps.
Proof.
  split.
  - intros Hm. apply Forall_forall. intros [n p] Hin. simpl.
    destruct (py_ne p.1 p.2) eqn:Hne; [|done]. exfalso.
    destruct (record_field_is_Some ps ∅ n p Hin Hne) as [q Hq].
    by rewrite Hm in Hq.
  - intros HF. apply map_eq. intros n. rewrite lookup_empty.
    destruct (_ !! n) as [p|] eqn:E; [|done].
    apply record_field_lookup in E as [(pre & post & -> & Hne & _)|[E _]];
      [|done].
    rewrite Forall_app, Forall_cons in HF. simpl in HF.
    destruct HF as (_ & ? & _). congruence.
Qed.

(** ** One key of the common set *)

Lemma for_each_graph {A B} (f : A → res B) l ys :
  for_each f l = Ok ys → ∀ y, y ∈ ys ↔ ∃ x, x ∈ l ∧ f x = Ok y.
Proof.
  intros H y. split; [by apply for_each_elem|].
  intros (x & Hx & Hf).
  destruct (for_each_image f l ys x H Hx) as (y' & ? & Hf').
  congruence.
Qed.

Lemma key_set_eq st df1 df cc vs :
  columns_at df1 (code_column_index st) = Ok cc →
  col_values df cc = Ok vs →
  key_set st df1 df = list_to_set vs.
Proof. intros H1 H2. unfold key_set. rewrite H1. simpl. by rewrite H2. Qed.

Section one_key.
Context (st : Settings) (df1 df2 : DataFrame) (k : value).
Context (cc dc : string) (cols : list (string * string)).
Context (row1 row2 : list value).
Hypothesis Hcc : columns_at df1 (code_column_index st) = Ok cc.
Hypothesis Hrow1 : first_row df1 cc k = Ok row1.
Hypothesis Hrow2 : first_row df2 cc k = Ok row2.

Lemma read_field_values f x :
  read_field df1 df2 row1 row2 f = Ok x ↔
  x.1 = f.1 ∧ field_values st df1 df2 k f.2 = Ok x.2.
Proof using Hcc Hrow1 Hrow2.
  unfold field_values, matched_row, read_field. rewrite Hcc. simpl.
  rewrite Hrow1, Hrow2. simpl. destruct x as [n [a b]]. simpl.
  split.
  - intros H. inv_res. by use_res.
  - intros [<- H]. inv_res. by use_res.
Qed.

Lemma equal_on_differs ps post n :
  Forall2 (λ f x, read_field df1 df2 row1 row2 f = Ok x) post ps →
  Forall (equal_on n) ps ↔
  ∀ col', (n, col') ∈ post → ¬ differs st df1 df2 k col'.
Proof using Hcc Hrow1 Hrow2.
  intros HF. rewrite Forall_forall. split.
  - intros Heq col' Hin (a & b & Hv & Hne).
    apply list_elem_of_lookup in Hin as [i Hi].
    destruct (Forall2_lookup_l _ _ _ _ _ HF Hi) as (x & Hx & Hr).
    apply read_field_values in Hr as [Hn Hr]. simpl in *.
    assert (x ∈ ps) as Hxin by (by eapply list_elem_of_lookup_2).
    specialize (Heq x Hxin Hn).
    rewrite Hv in Hr. injection Hr as Hr. rewrite <- Hr in Heq.
    simpl in Heq. congruence.
  - intros Hnd x Hin Hn.
    apply list_elem_of_lookup in Hin as [i Hi].
    destruct (Forall2_lookup_r _ _ _ _ _ HF Hi) as ([n' col'] & Hf & Hr).
    apply read_field_values in Hr as [Hn' Hr]. simpl in *. subst n'.
    destruct (py_ne x.2.1 x.2.2) eqn:Hne; [|done].
    destruct (Hnd col').
    + rewrite <- Hn. by eapply list_elem_of_lookup_2.
    + exists x.2.1, x.2.2. split; [|done]. by destruct x as [? []].
Qed.

Lemma last_differing_fold ps n p :
  for_each (read_field df1 df2 row1 row2) cols = Ok ps →
  foldl record_field ∅ ps !! n = Some p ↔
  last_differing st df1 df2 k cols n p.
Proof using Hcc Hrow1 Hrow2.
  rewrite for_each_Ok. intros HF.
  rewrite record_field_lookup, lookup_empty. unfold last_differing. split.
  - intros [(pre & post & -> & Hne & Heq)|[? _]]; [|done].
    apply Forall2_app_inv_r in HF as (cpre & crest & _ & HF & ->).
    apply Forall2_cons_inv_r in HF as ([n' col] & cpost & Hr & HF & ->).
    apply read_field_values in Hr as [Hn Hr]. simpl in *. subst n'.
    exists cpre, col, cpost. repeat split; [done..|].
    by apply (equal_on_differs post).
  - intros (cpre & col & cpost & -> & Hv & Hne & Hnd). left.
    apply Forall2_app_inv_l in HF as (pre & rest & _ & HF & ->).
    apply Forall2_cons_inv_l in HF as (x & post & Hr & HF & ->).
    apply read_field_values in Hr as [Hn Hr]. simpl in *.
    rewrite Hv in Hr. injection Hr as Hr.
    exists pre, post. split; [|split; [done|]].
    + destruct x as [? ?]. simpl in *. by subst.
    + by apply (equal_on_differs post cpost).
Qed.

Lemma fold_empty_differs ps :
  for_each (read_field df1 df2 row1 row2) cols = Ok ps →
  foldl record_field ∅ ps = ∅ ↔
  ∀ n col, (n, col) ∈ cols → ¬ differs st df1 df2 k col.
Proof using Hcc Hrow1 Hrow2.
  intros HF. rewrite record_field_empty, Forall_forall.
  apply for_each_Ok in HF. split.
  - intros Heq n col Hin (a & b & Hv & Hne).
    apply list_elem_of_lookup in Hin as [i Hi].
    destruct (Forall2_lookup_l _ _ _ _ _ HF Hi) as (x & Hx & Hr).
    apply read_field_values in Hr as [Hn Hr]. simpl in *.
    assert (x ∈ ps) as Hxin by (by eapply list_elem_of_lookup_2).
    specialize (Heq x Hxin).
    rewrite Hv in Hr. injection Hr as Hr. rewrite <- Hr in Heq.
    simpl in Heq. congruence.
  - intros Hnd x Hin.
    apply list_elem_of_lookup in Hin as [i Hi].
    destruct (Forall2_lookup_r _ _ _ _ _ HF Hi) as ([n' col'] & Hf & Hr).
    apply read_field_values in Hr as [Hn' Hr]. simpl in *.
    destruct (py_ne x.2.1 x.2.2) eqn:Hne; [|done].
    destruct (Hnd n' col').
    + by eapply list_elem_of_lookup_2.
    + exists x.2.1, x.2.2. split; [|done]. by destruct x as [? []].
Qed.

(** What [compare_code] returns for the key. *)
Lemma compare_code_spec o :
  compare_code df1 df2 cc dc cols k = Ok o →
  match o with
  | None => ∀ n col, (n, col) ∈ cols → ¬ differs st df1 df2 k col
  | Some e =>
      code e = k ∧
      row_get df1 row1 dc = Ok (description e) ∧
      (∃ n col, (n, col) ∈ cols ∧ differs st df1 df2 k col) ∧
      (∀ n col, (n, col) ∈ cols → differs st df1 df2 k col →
                is_Some (fields e !! n)) ∧
      ∀ n p, fields e !! n = Some p ↔ last_differing st df1 df2 k cols n p
  end.
Proof using Hcc Hrow1 Hrow2.
  unfold compare_code. rewrite Hrow1, Hrow2. simpl. intros H.
  apply bind_Ok in H as (fs & Hfs & H).
  apply diff_fields_fold in Hfs as (ps & Hps & ->).
  destruct (decide _) as [Hempty|Hne].
  - injection H as <-. by apply (fold_empty_differs ps).
  - inv_res. simpl. split; [done|]. split; [done|]. split.
    + apply map_choose in Hne as (n & p & Hn).
      apply last_differing_fold in Hn as (pre & col & post & -> & ? & ? & _);
        [|done].
      exists n, col. split; [apply elem_of_middle|].
      exists p.1, p.2. by destruct p.
    + split; [|intros n p; by apply last_differing_fold].
      intros n col Hin (a & b & Hv & Hab).
      destruct (for_each_image _ _ _ _ Hps Hin) as (y & Hy & Hr).
      apply read_field_values in Hr as [Hn Hr]. simpl in *.
      rewrite Hv in Hr. injection Hr as Hr.
      apply (record_field_is_Some ps ∅ n (a, b)); [|done].
      destruct y as [? ?]. simpl in *. by subst.
Qed.
End one_key.

Lemma description_of_first_row df cc dc k r :
  first_row df cc k = Ok r →
  description_of df cc dc k = row_get df r dc.
Proof.
  unfold first_row, description_of, row_get. intros H. inv_res. use_res.
  destruct (get_loc df dc); simpl; [|done]. by use_res.
Qed.

Lemma compare_code_rows df1 df2 cc dc cols k o :
  compare_code df1 df2 cc dc cols k = Ok o →
  ∃ row1 row2, first_row df1 cc k = Ok row1 ∧ first_row df2 cc k = Ok row2.
Proof. unfold compare_code. intros H. inv_res. eauto. Qed.

Lemma active_fields_eq st gck df1 cols :
  columns_to_compare st gck df1 = Ok cols → active_fields st gck df1 = cols.
Proof. unfold active_fields. by intros ->. Qed.

Lemma compare_key_spec st gck df1 df2 k o :
  compare_key st gck df1 df2 k = Ok o →
  match o with
  | None =>
      ∀ n col, (n, col) ∈ active_fields st gck df1 → ¬ differs st df1 df2 k col
  | Some e =>
      code e = k ∧
      key_description st df1 df1 k = Ok (description e) ∧
      (∃ n col, (n, col) ∈ active_fields st gck df1 ∧ differs st df1 df2 k col) ∧
      (∀ n col, (n, col) ∈ active_fields st gck df1 → differs st df1 df2 k col →
                is_Some (fields e !! n)) ∧
      ∀ n p, fields e !! n = Some p ↔
             last_differing st df1 df2 k (active_fields st gck df1) n p
  end.
Proof.
  unfold compare_key. intros H.
  apply bind_Ok in H as (cc & Hcc & H).
  apply bind_Ok in H as (dc & Hdc & H).
  apply bind_Ok in H as (cols & Hcols & H).
  rewrite (active_fields_eq _ _ _ _ Hcols).
  destruct (compare_code_rows _ _ _ _ _ _ _ H) as (row1 & row2 & Hr1 & Hr2).
  pose proof (compare_code_spec st df1 df2 k cc dc cols row1 row2
                Hcc Hr1 Hr2 o H) as Hspec.
  destruct o as [e|]; [|done].
  destruct Hspec as (? & Hd & ? & ? & ?).
  split; [done|]. split; [|done].
  unfold key_description. rewrite Hcc, Hdc. simpl.
  by rewrite (description_of_first_row _ _ _ _ _ Hr1).
Qed.

Section run.
Context (it : iteration) (st : Settings) (gck : bool) (df1 df2 : DataFrame).
Context (res : result).
Hypothesis Hrun : calculate_result it st gck df1 df2 = Ok res.

Lemma missing_spec k d :
  (k, d) ∈ missing_codes res ↔
  k ∈ key_set st df1 df1 ∧ (k ∉ key_set st df1 df2) ∧
  key_description st df1 df1 k = Ok d.
Proof using Hrun.
  destruct (calculate_result_Ok _ _ _ _ _ _ Hrun)
    as (cc & dc & v1 & v2 & Hcc & Hdc & Hv1 & Hv2 & Hm & _).
  rewrite (for_each_graph _ _ _ Hm).
  rewrite (key_set_eq _ _ _ _ _ Hcc Hv1), (key_set_eq _ _ _ _ _ Hcc Hv2).
  unfold key_description, with_description. rewrite Hcc, Hdc. simpl. split.
  - intros (x & Hx & H). inv_res.
    by apply iter_difference in Hx as [? ?].
  - intros (? & ? & Hd). exists k. by rewrite iter_difference, Hd.
Qed.

Lemma extra_spec k d :
  (k, d) ∈ extra_codes res ↔
  k ∈ key_set st df1 df2 ∧ (k ∉ key_set st df1 df1) ∧
  key_description st df1 df2 k = Ok d.
Proof using Hrun.
  destruct (calculate_result_Ok _ _ _ _ _ _ Hrun)
    as (cc & dc & v1 & v2 & Hcc & Hdc & Hv1 & Hv2 & _ & Hm & _).
  rewrite (for_each_graph _ _ _ Hm).
  rewrite (key_set_eq _ _ _ _ _ Hcc Hv1), (key_set_eq _ _ _ _ _ Hcc Hv2).
  unfold key_description, with_description. rewrite Hcc, Hdc. simpl. split.
  - intros (x & Hx & H). inv_res.
    by apply iter_difference in Hx as [? ?].
  - intros (? & ? & Hd). exists k. by rewrite iter_difference, Hd.
Qed.

Lemma differences_spec e :
  e ∈ differences res ↔
  comparing st gck = true ∧
  code e ∈ key_set st df1 df1 ∧ code e ∈ key_set st df1 df2 ∧
  compare_key st gck df1 df2 (code e) = Ok (Some e).
Proof using Hrun.
  destruct (calculate_result_Ok _ _ _ _ _ _ Hrun)
    as (cc & dc & v1 & v2 & Hcc & Hdc & Hv1 & Hv2 & _ & _ & Hd & _).
  rewrite (key_set_eq _ _ _ _ _ Hcc Hv1), (key_set_eq _ _ _ _ _ Hcc Hv2).
  fold (comparing st gck) in Hd. destruct (comparing st gck).
  - destruct Hd as (cols & ds & Hcols & Hds & ->).
    unfold appended. rewrite list_elem_of_omap.
    unfold compare_key. rewrite Hcc, Hdc, Hcols. simpl. split.
    + intros (o & Ho & ->). simpl in *.
      apply (for_each_graph _ _ _ Hds) in Ho as (x & Hx & Hc).
      assert (code e = x) as ->.
      { unfold compare_code in Hc. inv_res.
        destruct (decide _); by inv_res. }
      by apply iter_intersection in Hx as [? ?].
    + intros (_ & ? & ? & Hc). exists (Some e). split; [|done].
      apply (for_each_graph _ _ _ Hds). exists (code e).
      by rewrite iter_intersection.
  - rewrite Hd. split; [by intros ?%elem_of_nil|by intros [? _]].
Qed.

Lemma common_compared k :
  comparing st gck = true →
  k ∈ key_set st df1 df1 → k ∈ key_set st df1 df2 →
  ∃ o, compare_key st gck df1 df2 k = Ok o ∧
       ∀ e, o = Some e → e ∈ differences res.
Proof using Hrun.
  intros Hact Hk1 Hk2.
  destruct (calculate_result_Ok _ _ _ _ _ _ Hrun)
    as (cc & dc & v1 & v2 & Hcc & Hdc & Hv1 & Hv2 & _ & _ & Hd & _).
  rewrite (key_set_eq _ _ _ _ _ Hcc Hv1) in Hk1.
  rewrite (key_set_eq _ _ _ _ _ Hcc Hv2) in Hk2.
  fold (comparing st gck) in Hd. rewrite Hact in Hd.
  destruct Hd as (cols & ds & Hcols & Hds & Hres).
  destruct (for_each_image _ _ _ k Hds) as (o & Ho & Hc).
  { by rewrite iter_intersection. }
  exists o. unfold compare_key. rewrite Hcc, Hdc, Hcols. simpl.
  split; [done|]. intros e ->.
  rewrite Hres. unfold appended. apply list_elem_of_omap. eauto.
Qed.
End run.

Ltac by_compute := refine (bool_decide_unpack _ _); vm_compute; exact I.

(** ** The scenarios of the specification *)

(** Scenario A: a record of A with no counterpart in an empty B. *)
Example scenario_a :
  calculate_result elements_order default_settings true
    (tbl [item "001" "Widget" 10 5 5]) (tbl [])
  = Ok {| row_count_1 := 1; row_count_2 := 0;
          missing_codes := [(VStr "001", VStr "Widget")];
          extra_codes := []; differences := [] |}.
Proof. vm_compute. reflexivity. Qed.

(** Scenario B: the same record in both tables. *)
Example scenario_b :
  calculate_result elements_order default_settings true
    (tbl [item "001" "Widget" 10 5 5]) (tbl [item "001" "Widget" 10 5 5])
  = Ok {| row_count_1 := 1; row_count_2 := 1;
          missing_codes := []; extra_codes := []; differences := [] |}.
Proof. vm_compute. reflexivity. Qed.

(** Scenario C: the incoming quantity differs. *)
Example scenario_c :
  calculate_result elements_order default_settings true
    (tbl [item "001" "Widget" 10 5 5]) (tbl [item "001" "Widget" 12 5 5])
  = Ok {| row_count_1 := 1; row_count_2 := 1;
          missing_codes := []; extra_codes := [];
          differences :=
            [{| code := VStr "001"; description := VStr "Widget";
                fields := {[ "Incoming" := (num 10, num 12) ]} |}] |}.
Proof. vm_compute. reflexivity. Qed.

(** Scenario D: a custom comparison at index 9 on tables of eight columns. *)
Example scenario_d :
  calculate_result elements_order
    (with_custom default_settings [("Region", 9)]) false
    table_b_eight_columns table_b_eight_columns
  = Ok {| row_count_1 := 1; row_count_2 := 1;
          missing_codes := []; extra_codes := []; differences := [] |}.
Proof. vm_compute. reflexivity. Qed.

(** A record whose key cell is blank: the key NaN is in A only, and no
    record of A has a key equal to it, so [.iloc[0]] raises. *)
Example blank_key_raises :
  calculate_result elements_order default_settings false
    (tbl [[num 1; VNaN 0; VNaN 0; VNaN 0; VNaN 0; VStr "Widget";
           num 10; num 5; num 5]])
    (tbl [])
  = Raise IndexError.
Proof. vm_compute. reflexivity. Qed.

(** The run of [table_a] against [table_b] used below. *)
Example run_ab :
  calculate_result elements_order default_settings true table_a table_b
  = Ok result_ab.
Proof. vm_compute. reflexivity. Qed.

(** ** The key column by label and by position *)

Lemma py_index_same_length {A B} `{Inhabited A, Inhabited B}
    (l : list A) (l' : list B) i :
  length l = length l' →
  (∃ j, l !! j = Some (l !!! j) ∧ py_index l i = Ok (l !!! j) ∧
        py_index l' i = Ok (l' !!! j)) ∨
  (py_index l i = Raise IndexError ∧ py_index l' i = Raise IndexError).
Proof.
  intros Hlen. unfold py_index. cbv zeta. rewrite <- Hlen.
  set (n := Z.of_nat (length l)).
  set (j := if bool_decide (i < 0) then n + i else i).
  case_bool_decide as Hj; [left|by right].
  exists (Z.to_nat j).
  rewrite !list_lookup_lookup_total_lt by lia. done.
Qed.

Lemma get_loc_position df j c :
  NoDup (columns df) → columns df !! j = Some c → get_loc df c = Ok j.
Proof.
  intros Hnd Hj. unfold get_loc.
  destruct (list_find _ _) as [[pos c']|] eqn:Hf.
  - apply list_find_Some in Hf as (Hpos & -> & _).
    by rewrite (NoDup_lookup _ _ _ _ Hnd Hpos Hj).
  - apply list_find_None in Hf. exfalso.
    apply (proj1 (Forall_forall _ _) Hf c); [|done].
    by eapply list_elem_of_lookup_2.
Qed.

(** In a table whose header holds at key_index the label that [df1]'s header
    holds there, the key the comparison reads from a record is the value at
    key_index. *)
Lemma key_of_at_index st df1 df r v :
  wf_table df →
  columns_at df (code_column_index st) = columns_at df1 (code_column_index st) →
  r ∈ rows df →
  key_of st df1 df r = Ok v ↔ key_at_index st r = Some v.
Proof.
  intros [Hnd Hw] Hsame Hr.
  pose proof (proj1 (Forall_forall _ _) Hw r Hr) as Hlen.
  unfold key_of, key_at_index, row_get. rewrite <- Hsame. unfold columns_at.
  destruct (py_index_same_length (columns df) r (code_column_index st)
              (eq_sym Hlen)) as [(j & Hcj & -> & ->)|[-> ->]]; simpl; [|done].
  rewrite (get_loc_position _ _ _ Hnd Hcj). simpl. unfold cell.
  split; congruence.
Qed.

Lemma key_set_key_of st df1 df k :
  k ∈ key_set st df1 df ↔ ∃ r, r ∈ rows df ∧ key_of st df1 df r = Ok k.
Proof.
  unfold key_set, key_of, col_values, row_get.
  destruct (columns_at df1 (code_column_index st)) as [cc|e]; simpl.
  2:{ split; [by intros ?%elem_of_empty|by intros (? & _ & ?)]. }
  destruct (get_loc df cc) as [pos|e]; simpl.
  2:{ split; [by intros ?%elem_of_empty|by intros (? & _ & ?)]. }
  rewrite elem_of_list_to_set, list_elem_of_fmap. split.
  - intros (r & -> & ?). by exists r.
  - intros (r & ? & [= <-]). by exists r.
Qed.

Lemma key_set_positional st df1 df :
  wf_table df →
  columns_at df (code_column_index st) = columns_at df1 (code_column_index st) →
  key_set st df1 df = key_set_at_index st df.
Proof.
  intros Hwf Hsame. apply set_eq. intros k.
  rewrite key_set_key_of. unfold key_set_at_index.
  rewrite elem_of_list_to_set, list_elem_of_omap.
  split; intros (r & Hr & Hk); exists r; (split; [done|]);
    by apply (key_of_at_index st df1 df r k Hwf Hsame Hr).
Qed.

Lemma equal_field_differs st df1 df2 k col :
  equal_field st df1 df2 k col = true → ¬ differs st df1 df2 k col.
Proof.
  unfold equal_field. intros He (a & b & Hf & Hne). rewrite Hf in He.
  simpl in He. by rewrite Hne in He.
Qed.

(** ** The three collections *)

(** C8 (amended). Every key listed in [missing_codes] (only in A) is in the
    key set of table A and is not among the values that table B holds under
    the label of A's key column; every key listed in [extra_codes] (only in
    B) is among these values of B and not in the key set of A.  When B's
    header holds that label at key_index, these values are B's key set, and
    each list holds keys of the one key set that the other lacks. *)
Theorem only_in_keys it st gck df1 df2 res :
  wf_table df1 → wf_table df2 →
  calculate_result it st gck df1 df2 = Ok res →
  (∀ k, only_in_a res k →
        k ∈ key_set_at_index st df1 ∧ k ∉ key_set st df1 df2) ∧
  (∀ k, only_in_b res k →
        k ∈ key_set st df1 df2 ∧ k ∉ key_set_at_index st df1) ∧
  (columns_at df2 (code_column_index st)
   = columns_at df1 (code_column_index st) →
   (∀ k, only_in_a res k →
         k ∈ key_set_at_index st df1 ∧ k ∉ key_set_at_index st df2) ∧
   (∀ k, only_in_b res k →
         k ∈ key_set_at_index st df2 ∧ k ∉ key_set_at_index st df1)).
Proof.
  intros Hwf1 Hwf2 Hrun.
  rewrite <- (key_set_positional st df1 df1 Hwf1 eq_refl).
  assert (∀ k, only_in_a res k →
               k ∈ key_set st df1 df1 ∧ k ∉ key_set st df1 df2) as Ha.
  { intros k [d Hd]. apply (missing_spec _ _ _ _ _ _ Hrun) in Hd. tauto. }
  assert (∀ k, only_in_b res k →
               k ∈ key_set st df1 df2 ∧ k ∉ key_set st df1 df1) as Hb.
  { intros k [d Hd]. apply (extra_spec _ _ _ _ _ _ Hrun) in Hd. tauto. }
  split; [done|]. split; [done|].
  intros Hsame. by rewrite <- (key_set_positional st df1 df2 Hwf2 Hsame).
Qed.

Lemma only_in_keys_witness :
  (∀ k, only_in_a result_ab k →
        k ∈ key_set_at_index default_settings table_a ∧
        k ∉ key_set default_settings table_a table_b) ∧
  (∀ k, only_in_b result_ab k →
        k ∈ key_set default_settings table_a table_b ∧
        k ∉ key_set_at_index default_settings table_a) ∧
  (columns_at table_b (code_column_index default_settings)
   = columns_at table_a (code_column_index default_settings) →
   (∀ k, only_in_a result_ab k →
         k ∈ key_set_at_index default_settings table_a ∧
         k ∉ key_set_at_index default_settings table_b) ∧
   (∀ k, only_in_b result_ab k →
         k ∈ key_set_at_index default_settings table_b ∧
         k ∉ key_set_at_index default_settings table_a)).
Proof.
  apply (only_in_keys elements_order default_settings true table_a table_b).
  - by_compute.
  - by_compute.
  - vm_compute. reflexivity.
Defined.

(** C8, as stated, fails: with the default settings (key at 1) table A has
    the header [hdr] and table B the two columns "Code" and "Name".  B is
    read under the label "Code", so 003 is listed in [extra_codes]; the
    values of B at position 1 are the names, and 003 is not among them. *)
Lemma only_in_b_key_not_at_index :
  ¬ (∀ it st gck df1 df2 res,
       wf_table df1 → wf_table df2 →
       calculate_result it st gck df1 df2 = Ok res →
       (∀ k, only_in_a res k →
             k ∈ key_set_at_index st df1 ∧ k ∉ key_set_at_index st df2) ∧
       (∀ k, only_in_b res k →
             k ∈ key_set_at_index st df2 ∧ k ∉ key_set_at_index st df1)).
Proof.
  intros H.
  destruct (H elements_order default_settings false table_a table_code_name
              result_code_name) as [_ Hb].
  - by_compute.
  - by_compute.
  - vm_compute. reflexivity.
  - destruct (Hb (VStr "003")) as [Hin _].
    + exists (VStr "Gizmo"). apply list_elem_of_here.
    + assert (VStr "003" ∉ key_set_at_index default_settings table_code_name)
        as Hout by by_compute.
      done.
Qed.

Lemma active_fields_comparing st gck df1 f :
  f ∈ active_fields st gck df1 → comparing st gck = true.
Proof.
  unfold active_fields, columns_to_compare, comparing.
  destruct gck; [done|]. simpl.
  destruct (custom_comparisons st); [|done].
  by intros ?%elem_of_nil.
Qed.

(** C2 (amended). A key is listed in at most one of [missing_codes],
    [extra_codes] and [differences]; a key of table A that is among the
    values table B holds under the label of A's key column, and none of whose
    active comparison fields differs (in particular when no field is active),
    is in none.  When B's header holds that label at key_index, this is every
    key of both key sets none of whose active fields differs. *)
Theorem key_in_at_most_one_collection it st gck df1 df2 res k :
  wf_table df1 → wf_table df2 →
  calculate_result it st gck df1 df2 = Ok res →
  ¬ (only_in_a res k ∧ only_in_b res k) ∧
  ¬ (only_in_a res k ∧ in_differences res k) ∧
  ¬ (only_in_b res k ∧ in_differences res k) ∧
  (k ∈ key_set_at_index st df1 → k ∈ key_set st df1 df2 →
   (∀ n col, (n, col) ∈ active_fields st gck df1 → ¬ differs st df1 df2 k col) →
   ¬ only_in_a res k ∧ ¬ only_in_b res k ∧ ¬ in_differences res k) ∧
  (columns_at df2 (code_column_index st)
   = columns_at df1 (code_column_index st) →
   k ∈ key_set_at_index st df1 → k ∈ key_set_at_index st df2 →
   (∀ n col, (n, col) ∈ active_fields st gck df1 → ¬ differs st df1 df2 k col) →
   ¬ only_in_a res k ∧ ¬ only_in_b res k ∧ ¬ in_differences res k).
Proof.
  intros Hwf1 Hwf2 Hrun.
  rewrite <- (key_set_positional st df1 df1 Hwf1 eq_refl).
  assert (only_in_a res k → k ∈ key_set st df1 df1 ∧ k ∉ key_set st df1 df2)
    as Ha.
  { intros [d Hd]. apply (missing_spec _ _ _ _ _ _ Hrun) in Hd. tauto. }
  assert (only_in_b res k → k ∈ key_set st df1 df2 ∧ k ∉ key_set st df1 df1)
    as Hb.
  { intros [d Hd]. apply (extra_spec _ _ _ _ _ _ Hrun) in Hd. tauto. }
  assert (in_differences res k →
          k ∈ key_set st df1 df1 ∧ k ∈ key_set st df1 df2 ∧
          ∃ n col, (n, col) ∈ active_fields st gck df1 ∧ differs st df1 df2 k col)
    as Hd.
  { intros (e & He & <-).
    apply (differences_spec _ _ _ _ _ _ Hrun) in He as (_ & ? & ? & Hc).
    apply compare_key_spec in Hc as (_ & _ & ? & _). done. }
  assert (k ∈ key_set st df1 df1 → k ∈ key_set st df1 df2 →
          (∀ n col, (n, col) ∈ active_fields st gck df1 →
                    ¬ differs st df1 df2 k col) →
          ¬ only_in_a res k ∧ ¬ only_in_b res k ∧ ¬ in_differences res k)
    as Hnone.
  { intros Hk1 Hk2 Hequal. split; [|split].
    - intros ?%Ha. tauto.
    - intros ?%Hb. tauto.
    - intros (_ & _ & n & col & Hin & Hdiff)%Hd. by eapply Hequal. }
  split; [|split; [|split; [|split]]].
  - intros [?%Ha ?%Hb]. tauto.
  - intros [?%Ha ?%Hd]. tauto.
  - intros [?%Hb ?%Hd]. tauto.
  - done.
  - intros Hsame. by rewrite <- (key_set_positional st df1 df2 Hwf2 Hsame).
Qed.

Lemma key_in_at_most_one_collection_witness :
  ¬ (only_in_a result_a3 (VStr "001") ∧ only_in_b result_a3 (VStr "001")) ∧
  ¬ (only_in_a result_a3 (VStr "001") ∧
     in_differences result_a3 (VStr "001")) ∧
  ¬ (only_in_b result_a3 (VStr "001") ∧
     in_differences result_a3 (VStr "001")) ∧
  ¬ only_in_a result_a3 (VStr "001") ∧ ¬ only_in_b result_a3 (VStr "001") ∧
  ¬ in_differences result_a3 (VStr "001").
Proof.
  destruct (key_in_at_most_one_collection
              elements_order default_settings true table_a3 table_a
              result_a3 (VStr "001")) as (H1 & H2 & H3 & _ & H5).
  - by_compute.
  - by_compute.
  - vm_compute. reflexivity.
  - split; [exact H1|]. split; [exact H2|]. split; [exact H3|].
    apply H5.
    + reflexivity.
    + by_compute.
    + by_compute.
    + intros n col Hin. apply equal_field_differs.
      assert (Forall (λ f : string * string,
                        equal_field default_settings table_a3 table_a
                          (VStr "001") f.2 = true)
                (active_fields default_settings true table_a3)) as HF
        by by_compute.
      apply (proj1 (Forall_forall _ _) HF (n, col) Hin).
Defined.

(** C2, as stated, fails: with the default settings (key at 1) and nothing
    compared, 002 stands at position 1 of a record of table A and of a record
    of [table_b_rearranged]; B is read under the label "Code", which B holds
    at position 0, so 002 is listed in [missing_codes]. *)
Lemma key_of_both_tables_listed :
  ¬ (∀ it st df1 df2 res k,
       wf_table df1 → wf_table df2 →
       custom_comparisons st = [] →
       calculate_result it st false df1 df2 = Ok res →
       k ∈ key_set_at_index st df1 → k ∈ key_set_at_index st df2 →
       ¬ only_in_a res k ∧ ¬ only_in_b res k ∧ ¬ in_differences res k).
Proof.
  intros H.
  destruct (H elements_order default_settings table_a table_b_rearranged
              result_rearranged (VStr "002")) as [Ha _].
  - by_compute.
  - by_compute.
  - reflexivity.
  - vm_compute. reflexivity.
  - by_compute.
  - by_compute.
  - apply Ha. exists (VStr "Gadget"). apply list_elem_of_further, list_elem_of_here.
Qed.

(** C5. With the detailed comparison switched off and no custom comparison
    configured, [differences] is empty whatever the two tables hold. *)
Theorem no_fields_no_differences it st df1 df2 res :
  wf_table df1 → wf_table df2 →
  custom_comparisons st = [] →
  calculate_result it st false df1 df2 = Ok res →
  differences res = [].
Proof.
  intros _ _ Hcustom Hrun.
  destruct (calculate_result_Ok _ _ _ _ _ _ Hrun)
    as (cc & dc & v1 & v2 & _ & _ & _ & _ & _ & _ & Hd & _).
  rewrite Hcustom in Hd. done.
Qed.

Lemma no_fields_no_differences_witness :
  differences
    {| row_count_1 := 2; row_count_2 := 2;
       missing_codes := [(VStr "002", VStr "Gadget")];
       extra_codes := [(VStr "003", VStr "Gizmo")];
       differences := [] |} = [].
Proof.
  apply (no_fields_no_differences
           elements_order default_settings table_a table_b).
  - by_compute.
  - by_compute.
  - reflexivity.
  - vm_compute. reflexivity.
Defined.

(** A differing active field of a common key gets the key an entry, and its
    name a place in the entry's field mapping. *)
Lemma differing_field_recorded it st gck df1 df2 res k n col :
  calculate_result it st gck df1 df2 = Ok res →
  k ∈ key_set st df1 df1 → k ∈ key_set st df1 df2 →
  (n, col) ∈ active_fields st gck df1 →
  differs st df1 df2 k col →
  ∃ e, e ∈ differences res ∧ code e = k ∧ is_Some (fields e !! n).
Proof.
  intros Hrun Hk1 Hk2 Hin Hdiff.
  pose proof (active_fields_comparing _ _ _ _ Hin) as Hact.
  destruct (common_compared _ _ _ _ _ _ Hrun k Hact Hk1 Hk2) as (o & Ho & Hres).
  pose proof (compare_key_spec _ _ _ _ _ _ Ho) as Hspec.
  destruct o as [e|]; simpl in Hspec; [|by destruct (Hspec n col Hin Hdiff)].
  destruct Hspec as (? & _ & _ & Hsome & _).
  exists e. eauto.
Qed.

Lemma entry_of_key it st gck df1 df2 res e :
  calculate_result it st gck df1 df2 = Ok res →
  e ∈ differences res →
  compare_key st gck df1 df2 (code e) = Ok (Some e).
Proof.
  intros Hrun He.
  apply (differences_spec _ _ _ _ _ _ Hrun) in He. tauto.
Qed.









(** ** Frames with the same header *)




Lemma custom_columns_cons df c cs :
  custom_columns df (c :: cs) =
  match columns_at df c.2 with
  | Ok col => (c.1, col) :: custom_columns df cs
  | Raise _ => custom_columns df cs
  end.
Proof. unfold custom_columns. simpl. by destruct (columns_at df c.2). Qed.

Lemma custom_columns_app df cs cs' :
  custom_columns df (cs ++ cs') = custom_columns df cs ++ custom_columns df cs'.
Proof.
  induction cs as [|c cs IH]; [done|].
  rewrite <- app_comm_cons, !custom_columns_cons, IH.
  by destruct (columns_at df c.2).
Qed.

Section same_header.
Context (df df' : DataFrame).
Hypothesis Hcols : columns df = columns df'.

Lemma columns_at_header i : columns_at df' i = columns_at df i.
Proof using Hcols. unfold columns_at. by rewrite Hcols. Qed.



Lemma custom_columns_header cs : custom_columns df' cs = custom_columns df cs.
Proof using Hcols.
induction cs as [|c cs IH]; [done|].
by rewrite !custom_columns_cons, columns_at_header, IH.
Qed.

Lemma columns_to_compare_header st gck :
columns_to_compare st gck df' = columns_to_compare st gck df.
Proof using Hcols.
unfold columns_to_compare.
by rewrite custom_columns_header, !columns_at_header.
Qed.



End same_header.





Lemma filter_head_split {A} (P : A → Prop) `{∀ x, Decision (P x)} l x xs :
  filter P l = x :: xs →
  ∃ pre post, l = pre ++ x :: post ∧ P x ∧ ∀ y, y ∈ pre → ¬ P y.
Proof.
  induction l as [|y l IH]; [done|]. rewrite filter_cons.
  destruct (decide (P y)) as [Hy|Hy].
  - intros [= -> _]. exists [], l. split; [done|]. split; [done|].
    by intros ? ?%elem_of_nil.
  - intros (pre & post & -> & ? & Hpre)%IH. exists (y :: pre), post.
    split; [done|]. split; [done|].
    intros z [->|?]%elem_of_cons; auto.
Qed.










Lemma iter_perm (it1 it2 : iteration) (s : gset value) : it1 s ≡ₚ it2 s.
Proof. by rewrite (iter_elements it1 s), (iter_elements it2 s). Qed.

Lemma calculate_result_reorder it1 it2 st gck df1 df2 res1 :
  calculate_result it1 st gck df1 df2 = Ok res1 →
  ∃ res2, calculate_result it2 st gck df1 df2 = Ok res2 ∧
          same_up_to_order (Ok res1) (Ok res2).
Proof.
  intros Hrun.
  destruct (calculate_result_Ok _ _ _ _ _ _ Hrun)
    as (cc & dc & v1 & v2 & Hcc & Hdc & Hv1 & Hv2 & Hm & He & Hd & Hc1 & Hc2).
  destruct (for_each_perm _ _ _ _ (iter_perm it1 it2 _) Hm) as (m2 & Hm2 & ?).
  destruct (for_each_perm _ _ _ _ (iter_perm it1 it2 _) He) as (e2 & He2 & ?).
  unfold calculate_result. rewrite Hcc, Hdc. simpl. rewrite Hv1, Hv2. simpl.
  rewrite Hm2. simpl. rewrite He2. simpl.
  destruct (gck || _).
  - destruct Hd as (cols & ds & Hcols & Hds & Hres).
    destruct (for_each_perm _ _ _ _ (iter_perm it1 it2 _) Hds)
      as (ds2 & Hds2 & Hp).
    unfold compare_common. rewrite Hcols. simpl. rewrite Hds2. simpl.
    eexists. split; [done|]. simpl. rewrite Hres. repeat split; try done.
    unfold appended. by rewrite Hp.
  - simpl. eexists. split; [done|]. simpl. rewrite Hd. by repeat split.
Qed.

(** C9. The outcome of the comparison is determined by the two tables and
    the configuration: whatever order the sets of keys are iterated in, two
    runs both raise or both return, with the same row counts and the same
    members of [missing_codes], [extra_codes] and [differences]. *)
Theorem result_independent_of_iteration it1 it2 st gck df1 df2 :
  wf_table df1 → wf_table df2 →
  same_up_to_order (calculate_result it1 st gck df1 df2)
                   (calculate_result it2 st gck df1 df2).
Proof.
  intros _ _.
  destruct (calculate_result it1 st gck df1 df2) as [res1|e1] eqn:H1.
  - destruct (calculate_result_reorder it1 it2 _ _ _ _ _ H1) as (res2 & -> & ?).
    done.
  - destruct (calculate_result it2 st gck df1 df2) as [res2|e2] eqn:H2; [|done].
    destruct (calculate_result_reorder it2 it1 _ _ _ _ _ H2) as (res1 & H & _).
    congruence.
Qed.

Lemma result_independent_of_iteration_witness :
  same_up_to_order
    (calculate_result elements_order default_settings true table_a3 table_b)
    (calculate_result reverse_order default_settings true table_a3 table_b).
Proof.
  apply (result_independent_of_iteration
           elements_order reverse_order default_settings true table_a3 table_b).
  - by_compute.
  - by_compute.
Defined.

(** ** Column positions *)

Lemma columns_at_invalid df i :
  ¬ valid_position df i → columns_at df i = Raise IndexError.
Proof. apply py_index_invalid. Qed.

Lemma columns_at_valid df i :
  valid_position df i → ∃ c, columns_at df i = Ok c.
Proof. apply py_index_valid. Qed.

Lemma col_values_own_label df i cc :
  columns_at df i = Ok cc → ∃ v, col_values df cc = Ok v.
Proof.
  intros [pos Hpos]%columns_at_get_loc. unfold col_values.
  rewrite Hpos. simpl. eauto.
Qed.

(** C1 (amended). When [code_column_index] or [name_column_index] is not a
    position of table A's header, the comparison raises IndexError and returns
    nothing.  Table B is read under the labels that A's header holds at these
    positions, whatever their positions in B: when B's header lacks the label
    of the key column, the comparison raises KeyError and returns nothing. *)
Theorem invalid_key_or_description_index it st gck df1 df2 :
  wf_table df1 → wf_table df2 →
  (¬ valid_position df1 (code_column_index st) ∨
   ¬ valid_position df1 (name_column_index st) →
   calculate_result it st gck df1 df2 = Raise IndexError) ∧
  (∀ cc, columns_at df1 (code_column_index st) = Ok cc →
         valid_position df1 (name_column_index st) →
         cc ∉ columns df2 →
         calculate_result it st gck df1 df2 = Raise KeyError).
Proof.
  intros _ _. split.
  - intros Hbad. unfold calculate_result.
    destruct (columns_at df1 (code_column_index st)) as [cc|e] eqn:Hcc.
    + destruct Hbad as [Hbad|Hbad].
      * apply columns_at_invalid in Hbad. congruence.
      * apply columns_at_invalid in Hbad. simpl. by rewrite Hbad.
    + destruct (decide (valid_position df1 (code_column_index st))) as [Hv|Hv].
      * apply columns_at_valid in Hv as [? ?]. congruence.
      * apply columns_at_invalid in Hv. simpl. congruence.
  - intros cc Hcc [dc Hdc]%columns_at_valid Habsent.
    unfold calculate_result. rewrite Hcc, Hdc. simpl.
    destruct (col_values_own_label _ _ _ Hcc) as [v1 ->]. simpl.
    unfold col_values. by rewrite (get_loc_absent _ _ Habsent).
Qed.

Lemma invalid_key_or_description_index_witness :
  calculate_result elements_order default_settings false
    table_three_columns table_a = Raise IndexError ∧
  calculate_result elements_order settings_three false
    table_three_columns table_no_code = Raise KeyError.
Proof.
  split.
  - refine (proj1 (invalid_key_or_description_index
                     elements_order default_settings false
                     table_three_columns table_a _ _) _).
    + by_compute.
    + by_compute.
    + right. unfold valid_position. simpl. lia.
  - refine (proj2 (invalid_key_or_description_index
                     elements_order settings_three false
                     table_three_columns table_no_code _ _) "Code" _ _ _).
    + by_compute.
    + by_compute.
    + reflexivity.
    + unfold valid_position. simpl. lia.
    + by_compute.
Defined.

(** C1, as stated, fails: with the default settings (key at 1, description
    at 5) table A has the nine columns of [hdr] and table B only the two
    columns "Code" and "Name", so position 5 is no position of B; the
    comparison reads B by label and returns a result. *)
Lemma index_invalid_for_table_b_no_error :
  ¬ (∀ it st gck df1 df2,
       wf_table df1 → wf_table df2 →
       ¬ valid_position df1 (code_column_index st) ∨
       ¬ valid_position df1 (name_column_index st) ∨
       ¬ valid_position df2 (code_column_index st) ∨
       ¬ valid_position df2 (name_column_index st) →
       is_raise (calculate_result it st gck df1 df2)).
Proof.
  intros H.
  specialize (H elements_order default_settings false table_a table_code_name).
  assert (calculate_result elements_order default_settings false
            table_a table_code_name
          = Ok {| row_count_1 := 2; row_count_2 := 2;
                  missing_codes := [(VStr "002", VStr "Gadget")];
                  extra_codes := [(VStr "003", VStr "Gizmo")];
                  differences := [] |}) as Hrun
    by (vm_compute; reflexivity).
  rewrite Hrun in H. apply H.
  - by_compute.
  - by_compute.
  - do 3 right. unfold valid_position. simpl. lia.
Qed.

(** ** Custom comparisons with an index outside table A *)

Lemma custom_columns_skip df1 name idx pre post :
  ¬ valid_position df1 idx →
  custom_columns df1 (pre ++ (name, idx) :: post)
  = custom_columns df1 (pre ++ post).
Proof.
  intros Hbad%columns_at_invalid.
  rewrite !custom_columns_app, custom_columns_cons. simpl. by rewrite Hbad.
Qed.

Lemma columns_to_compare_custom st gck df1 cs cs' :
  custom_columns df1 cs = custom_columns df1 cs' →
  columns_to_compare (with_custom st cs) gck df1
  = columns_to_compare (with_custom st cs') gck df1.
Proof. unfold columns_to_compare. simpl. by intros ->. Qed.

Lemma compare_code_no_columns df1 df2 cc dc c o :
  compare_code df1 df2 cc dc [] c = Ok o → o = None.
Proof.
  unfold compare_code. simpl. intros H.
  apply bind_Ok in H as (row1 & _ & H).
  apply bind_Ok in H as (row2 & _ & H).
  destruct (decide _); [by inv_res|done].
Qed.

Lemma appended_no_columns df1 df2 cc dc l ds :
  for_each (compare_code df1 df2 cc dc []) l = Ok ds → appended ds = [].
Proof.
  revert ds. induction l as [|c l IH]; intros ds; simpl.
  - by intros [= <-].
  - intros H. inv_res.
    rewrite (compare_code_no_columns _ _ _ _ _ _ ltac:(eassumption)).
    unfold appended in *. simpl. by apply IH.
Qed.

Lemma calculate_result_comparing it st gck df1 df2 cs cs' :
  custom_columns df1 cs = custom_columns df1 cs' →
  comparing (with_custom st cs) gck = comparing (with_custom st cs') gck →
  calculate_result it (with_custom st cs) gck df1 df2
  = calculate_result it (with_custom st cs') gck df1 df2.
Proof.
  intros Hcols Hcmp. unfold calculate_result, compare_common.
  fold (comparing (with_custom st cs) gck).
  fold (comparing (with_custom st cs') gck).
  by rewrite Hcmp, (columns_to_compare_custom _ _ _ _ _ Hcols).
Qed.

Lemma calculate_result_sole_custom it st df1 df2 cs res :
  custom_columns df1 cs = [] →
  calculate_result it (with_custom st cs) false df1 df2 = Ok res →
  calculate_result it (with_custom st []) false df1 df2 = Ok res.
Proof.
  intros Hcols Hrun. destruct res as [c1 c2 m e d].
  apply calculate_result_Ok in Hrun
    as (cc & dc & v1 & v2 & Hcc & Hdc & Hv1 & Hv2 & Hm & He & Hd & Hc1 & Hc2).
  simpl in *.
  assert (d = []) as ->.
  { destruct (bool_decide (cs = [])); simpl in Hd; [done|].
    destruct Hd as (cols & ds & Hc & Hds & ->).
    unfold columns_to_compare in Hc. simpl in Hc. rewrite Hcols in Hc.
    injection Hc as <-. by eapply appended_no_columns. }
  unfold calculate_result. simpl. rewrite Hcc, Hdc. simpl.
  rewrite Hv1, Hv2. simpl. rewrite Hm. simpl. rewrite He. simpl.
  by subst.
Qed.

(** C3 (amended). A custom comparison whose index is not a position of
    table A's header is left out of the active fields and its lookup raises
    nothing: a run that returns with it configured returns the same result
    without it, and when the detailed comparison is on or another custom
    comparison is configured the two runs agree altogether. *)
Theorem custom_field_outside_table_a_skipped
    it st gck df1 df2 name idx pre post :
  wf_table df1 → wf_table df2 →
  ¬ valid_position df1 idx →
  active_fields (with_custom st (pre ++ (name, idx) :: post)) gck df1
  = active_fields (with_custom st (pre ++ post)) gck df1 ∧
  (∀ res,
     calculate_result it (with_custom st (pre ++ (name, idx) :: post))
       gck df1 df2 = Ok res →
     calculate_result it (with_custom st (pre ++ post)) gck df1 df2 = Ok res) ∧
  (gck = true ∨ pre ++ post ≠ [] →
   calculate_result it (with_custom st (pre ++ (name, idx) :: post))
     gck df1 df2
   = calculate_result it (with_custom st (pre ++ post)) gck df1 df2).
Proof.
  intros _ _ Hbad.
  pose proof (custom_columns_skip df1 name idx pre post Hbad) as Hcols.
  assert (gck = true ∨ pre ++ post ≠ [] →
          calculate_result it (with_custom st (pre ++ (name, idx) :: post))
            gck df1 df2
          = calculate_result it (with_custom st (pre ++ post)) gck df1 df2)
    as Hsame.
  { intros Hactive. apply calculate_result_comparing; [done|].
    unfold comparing. simpl. destruct Hactive as [->|Hne]; [done|].
    rewrite !bool_decide_eq_false_2; [done..|].
    by destruct pre. }
  split; [|split; [|done]].
  - unfold active_fields.
    by rewrite (columns_to_compare_custom _ _ _ _ _ Hcols).
  - intros res Hrun. destruct gck; [by rewrite <- Hsame; auto|].
    destruct (decide (pre ++ post = [])) as [Hnil|Hne];
      [|by rewrite <- Hsame; auto].
    rewrite Hnil in *. apply (calculate_result_sole_custom _ _ _ _ _ _ Hcols).
    done.
Qed.

Lemma custom_field_outside_table_a_skipped_witness :
  calculate_result elements_order
    (with_custom default_settings ([("Out", 7)] ++ ("Region", 9) :: []))
    false table_a table_b
  = calculate_result elements_order
      (with_custom default_settings ([("Out", 7)] ++ []))
      false table_a table_b.
Proof.
  refine (proj2 (proj2 (custom_field_outside_table_a_skipped
                          elements_order default_settings false
                          table_a table_b "Region" 9 [("Out", 7)] []
                          _ _ _)) _).
  - by_compute.
  - by_compute.
  - unfold valid_position. simpl. lia.
  - right. discriminate.
Defined.

(** C3, as stated, fails: the custom comparison "Rest" at index 8 is a
    position of table A (nine columns) but not of table B (eight columns);
    it is not skipped, and reading "Remaining" in B's record of the common key
    "001" raises KeyError, while the run without it returns. *)
Lemma custom_field_outside_table_b_raises :
  ¬ (∀ it st gck df1 df2 name idx pre post,
       wf_table df1 → wf_table df2 →
       ¬ valid_position df1 idx ∨ ¬ valid_position df2 idx →
       calculate_result it (with_custom st (pre ++ (name, idx) :: post))
         gck df1 df2
       = calculate_result it (with_custom st (pre ++ post)) gck df1 df2).
Proof.
  intros H.
  specialize (H elements_order default_settings false
                table_a table_b_eight_columns "Rest" 8 [("Out", 7)] []).
  assert (calculate_result elements_order
            (with_custom default_settings ([("Out", 7)] ++ [("Rest", 8)]))
            false table_a table_b_eight_columns
          = Raise KeyError) as Hwith
    by (vm_compute; reflexivity).
  assert (calculate_result elements_order
            (with_custom default_settings ([("Out", 7)] ++ []))
            false table_a table_b_eight_columns
          = Ok {| row_count_1 := 2; row_count_2 := 1;
                  missing_codes := [(VStr "002", VStr "Gadget")];
                  extra_codes := [];
                  differences := [] |}) as Hwithout
    by (vm_compute; reflexivity).
  rewrite Hwith, Hwithout in H. discriminate H.
  - by_compute.
  - by_compute.
  - right. unfold valid_position. simpl. lia.
Qed.

(** * Further properties of the comparison *)

(** ** Loops that cannot fail *)

Lemma for_each_total {A B} (f : A → res B) l :
  (∀ x, x ∈ l → ∃ y, f x = Ok y) → ∃ ys, for_each f l = Ok ys.
Proof.
  induction l as [|x l IH]; intros Hf; simpl; [by exists []|].
  destruct (Hf x) as [y Hy]; [by left|].
  destruct IH as [ys Hys]; [intros z ?; apply Hf; by right|].
  rewrite Hy. simpl. rewrite Hys. simpl. eauto.
Qed.

Lemma with_description_keys df cc dc l ys :
  for_each (with_description df cc dc) l = Ok ys → ys.*1 = l.
Proof.
  revert ys. induction l as [|x l IH]; intros ys; simpl.
  - by intros [= <-].
  - intros H. apply bind_Ok in H as ([k d] & Hx & H).
    apply bind_Ok in H as (ys' & Hl & [= <-]).
    unfold with_description in Hx. apply bind_Ok in Hx as (d' & _ & [= -> ->]).
    rewrite fmap_cons. simpl. f_equal. by apply IH.
Qed.

Lemma compare_code_key df1 df2 cc dc cols c e :
  compare_code df1 df2 cc dc cols c = Ok (Some e) → code e = c.
Proof.
  unfold compare_code. intros H.
  apply bind_Ok in H as (row1 & _ & H).
  apply bind_Ok in H as (row2 & _ & H).
  apply bind_Ok in H as (fs & _ & H).
  destruct (decide _); [done|].
  by apply bind_Ok in H as (d & _ & [= <-]).
Qed.

Lemma appended_keys df1 df2 cc dc cols l ds :
  for_each (compare_code df1 df2 cc dc cols) l = Ok ds →
  code <$> appended ds `sublist_of` l.
Proof.
  revert ds. induction l as [|c l IH]; intros ds; simpl.
  - by intros [= <-].
  - intros H. apply bind_Ok in H as (o & Hc & H).
    apply bind_Ok in H as (ds' & Hl & [= <-]).
    specialize (IH _ Hl). unfold appended in *. destruct o as [e|]; simpl.
    + rewrite (compare_code_key _ _ _ _ _ _ _ Hc). by constructor.
    + by constructor.
Qed.

(** ** Keys are listed once, and every key of one table only is listed *)

(** X1. No key is listed twice in [missing_codes], in [extra_codes] or in
    [differences], however often it occurs in the tables. *)
Theorem keys_listed_once it st gck df1 df2 res :
  wf_table df1 → wf_table df2 →
  calculate_result it st gck df1 df2 = Ok res →
  NoDup (missing_codes res).*1 ∧
  NoDup (extra_codes res).*1 ∧
  NoDup (code <$> differences res).
Proof.
  intros _ _ Hrun.
  destruct (calculate_result_Ok _ _ _ _ _ _ Hrun)
    as (cc & dc & v1 & v2 & _ & _ & _ & _ & Hm & He & Hd & _).
  assert (∀ s : gset value, NoDup (it s)) as Hnd.
  { intros s. rewrite (iter_elements it s). apply NoDup_elements. }
  split; [|split].
  - by rewrite (with_description_keys _ _ _ _ _ Hm).
  - by rewrite (with_description_keys _ _ _ _ _ He).
  - destruct (gck || _).
    + destruct Hd as (cols & ds & _ & Hds & ->).
      eapply sublist_NoDup; [apply Hnd|by eapply appended_keys].
    + rewrite Hd. constructor.
Qed.

Lemma keys_listed_once_witness :
  NoDup (missing_codes result_ab).*1 ∧
  NoDup (extra_codes result_ab).*1 ∧
  NoDup (code <$> differences result_ab).
Proof.
  apply (keys_listed_once elements_order default_settings true
           table_a table_b).
  - by_compute.
  - by_compute.
  - vm_compute. reflexivity.
Defined.

Lemma missing_complete it st gck df1 df2 res k :
  calculate_result it st gck df1 df2 = Ok res →
  k ∈ key_set st df1 df1 → k ∉ key_set st df1 df2 →
  ∃ d, (k, d) ∈ missing_codes res ∧ key_description st df1 df1 k = Ok d.
Proof.
  intros Hrun.
  destruct (calculate_result_Ok _ _ _ _ _ _ Hrun)
    as (cc & dc & v1 & v2 & Hcc & Hdc & Hv1 & Hv2 & Hm & _).
  rewrite (key_set_eq _ _ _ _ _ Hcc Hv1), (key_set_eq _ _ _ _ _ Hcc Hv2).
  unfold key_description. rewrite Hcc, Hdc. simpl. intros Hk1 Hk2.
  destruct (for_each_image _ _ _ k Hm) as ([k' d] & Hin & Hd);
    [by apply iter_difference|].
  unfold with_description in Hd. apply bind_Ok in Hd as (d' & Hd & [= <- <-]).
  eauto.
Qed.

Lemma extra_complete it st gck df1 df2 res k :
  calculate_result it st gck df1 df2 = Ok res →
  k ∈ key_set st df1 df2 → k ∉ key_set st df1 df1 →
  ∃ d, (k, d) ∈ extra_codes res ∧ key_description st df1 df2 k = Ok d.
Proof.
  intros Hrun.
  destruct (calculate_result_Ok _ _ _ _ _ _ Hrun)
    as (cc & dc & v1 & v2 & Hcc & Hdc & Hv1 & Hv2 & _ & He & _).
  rewrite (key_set_eq _ _ _ _ _ Hcc Hv1), (key_set_eq _ _ _ _ _ Hcc Hv2).
  unfold key_description. rewrite Hcc, Hdc. simpl. intros Hk2 Hk1.
  destruct (for_each_image _ _ _ k He) as ([k' d] & Hin & Hd);
    [by apply iter_difference|].
  unfold with_description in Hd. apply bind_Ok in Hd as (d' & Hd & [= <- <-]).
  eauto.
Qed.

(** X2. Every key of table A that table B lacks is listed in [missing_codes],
    and every key of B that A lacks in [extra_codes], each with the
    description of its first record. *)
Theorem keys_of_one_table_listed it st gck df1 df2 res k :
  wf_table df1 → wf_table df2 →
  calculate_result it st gck df1 df2 = Ok res →
  (k ∈ key_set st df1 df1 → k ∉ key_set st df1 df2 →
   ∃ d, (k, d) ∈ missing_codes res ∧ key_description st df1 df1 k = Ok d) ∧
  (k ∈ key_set st df1 df2 → k ∉ key_set st df1 df1 →
   ∃ d, (k, d) ∈ extra_codes res ∧ key_description st df1 df2 k = Ok d).
Proof.
  intros _ _ Hrun. split.
  - by apply (missing_complete it st gck).
  - by apply (extra_complete it st gck).
Qed.

Lemma keys_of_one_table_listed_witness :
  (VStr "002" ∈ key_set default_settings table_a table_a →
   VStr "002" ∉ key_set default_settings table_a table_b →
   ∃ d, (VStr "002", d) ∈ missing_codes result_ab ∧
        key_description default_settings table_a table_a (VStr "002") = Ok d) ∧
  (VStr "002" ∈ key_set default_settings table_a table_b →
   VStr "002" ∉ key_set default_settings table_a table_a →
   ∃ d, (VStr "002", d) ∈ extra_codes result_ab ∧
        key_description default_settings table_a table_b (VStr "002") = Ok d).
Proof.
  apply (keys_of_one_table_listed elements_order default_settings true
           table_a table_b).
  - by_compute.
  - by_compute.
  - vm_compute. reflexivity.
Defined.

(** ** Blank keys *)

Lemma py_eq_nan a i : py_eq a (VNaN i) = false.
Proof. by destruct a. Qed.

Lemma py_eq_refl a : ¬ is_nan a → py_eq a a = true.
Proof.
  intros Hnan. destruct a; simpl.
  - by apply bool_decide_eq_true_2.
  - by apply bool_decide_eq_true_2.
  - destruct Hnan. by eexists.
Qed.

Lemma first_row_nan df cc i r : first_row df cc (VNaN i) = Ok r → False.
Proof.
  unfold first_row, select_rows. intros H.
  apply bind_Ok in H as (rs & Hrs & H).
  apply bind_Ok in Hrs as (pos & _ & [= <-]).
  destruct (filter _ _) as [|x xs] eqn:Hf; [done|].
  apply filter_head_split in Hf as (_ & _ & _ & Hx & _).
  by rewrite py_eq_nan in Hx.
Qed.

Lemma description_of_nan df cc dc i d :
  description_of df cc dc (VNaN i) = Ok d → False.
Proof.
  unfold description_of, select_rows. intros H.
  apply bind_Ok in H as (rs & Hrs & H).
  apply bind_Ok in Hrs as (pos & _ & [= <-]).
  apply bind_Ok in H as (dpos & _ & H).
  apply bind_Ok in H as (r & Hr & _).
  destruct (filter _ _) as [|x xs] eqn:Hf; [done|].
  apply filter_head_split in Hf as (_ & _ & _ & Hx & _).
  by rewrite py_eq_nan in Hx.
Qed.

(** X3. A run that returns met no blank key it had to look up: a blank key (a
    NaN object) of one table is the same object in the other table, and when
    the common keys are compared neither table has a blank key at all.  In
    every other case a blank key makes the comparison raise. *)
Theorem blank_keys_abort it st gck df1 df2 res i :
  wf_table df1 → wf_table df2 →
  calculate_result it st gck df1 df2 = Ok res →
  (VNaN i ∈ key_set st df1 df1 ↔ VNaN i ∈ key_set st df1 df2) ∧
  (comparing st gck = true →
   (VNaN i ∉ key_set st df1 df1) ∧ (VNaN i ∉ key_set st df1 df2)).
Proof.
  intros _ _ Hrun.
  destruct (calculate_result_Ok _ _ _ _ _ _ Hrun)
    as (cc & dc & v1 & v2 & Hcc & Hdc & Hv1 & Hv2 & Hm & He & Hd & _).
  rewrite (key_set_eq _ _ _ _ _ Hcc Hv1), (key_set_eq _ _ _ _ _ Hcc Hv2).
  assert (VNaN i ∈ (list_to_set v1 : gset value) ↔
          VNaN i ∈ (list_to_set v2 : gset value)) as Hboth.
  { split; intros Hin.
    - destruct (decide (VNaN i ∈ (list_to_set v2 : gset value)))
        as [|Hout]; [done|exfalso].
      destruct (for_each_image _ _ _ (VNaN i) Hm) as (y & _ & Hy);
        [by apply iter_difference|].
      unfold with_description in Hy. apply bind_Ok in Hy as (d & Hy & _).
      by apply description_of_nan in Hy.
    - destruct (decide (VNaN i ∈ (list_to_set v1 : gset value)))
        as [|Hout]; [done|exfalso].
      destruct (for_each_image _ _ _ (VNaN i) He) as (y & _ & Hy);
        [by apply iter_difference|].
      unfold with_description in Hy. apply bind_Ok in Hy as (d & Hy & _).
      by apply description_of_nan in Hy. }
  split; [done|]. intros Hcmp. unfold comparing in Hcmp. rewrite Hcmp in Hd.
  destruct Hd as (cols & ds & _ & Hds & _).
  assert (VNaN i ∉ (list_to_set v1 : gset value)) as Hout.
  { intros Hin.
    destruct (for_each_image _ _ _ (VNaN i) Hds) as (o & _ & Ho).
    { apply iter_intersection. split; [done|]. by apply Hboth. }
    apply compare_code_rows in Ho as (row1 & _ & Hr1 & _).
    by apply first_row_nan in Hr1. }
  split; [done|]. by rewrite <- Hboth.
Qed.

Lemma blank_keys_abort_witness :
  (VNaN 0 ∈ key_set default_settings table_blank_key table_blank_key ↔
   VNaN 0 ∈ key_set default_settings table_blank_key table_blank_key) ∧
  (comparing default_settings false = true →
   (VNaN 0 ∉ key_set default_settings table_blank_key table_blank_key) ∧
   (VNaN 0 ∉ key_set default_settings table_blank_key table_blank_key)).
Proof.
  apply (blank_keys_abort elements_order default_settings false
           table_blank_key table_blank_key
           {| row_count_1 := 2; row_count_2 := 2;
              missing_codes := []; extra_codes := []; differences := [] |}
           0%nat).
  - by_compute.
  - by_compute.
  - vm_compute. reflexivity.
Defined.

(** A blank key shared by both tables goes unnoticed while no field is
    compared, and raises as soon as the detailed comparison is switched on. *)
Example shared_blank_key :
  calculate_result elements_order default_settings false
    table_blank_key table_blank_key
  = Ok {| row_count_1 := 2; row_count_2 := 2;
          missing_codes := []; extra_codes := []; differences := [] |} ∧
  calculate_result elements_order default_settings true
    table_blank_key table_blank_key
  = Raise IndexError.
Proof. split; vm_compute; reflexivity. Qed.

(** ** The detailed comparison and its three columns *)

(** X4. Unlike a custom comparison, a column of the detailed comparison
    (Incoming, Outgoing, Remaining) whose index is no position of table A is
    not skipped: with the detailed comparison on the run raises, common keys
    or not, and raises IndexError whenever the keys themselves could be
    reconciled. *)
Theorem invalid_detailed_index_raises it st df1 df2 :
  wf_table df1 → wf_table df2 →
  ¬ valid_position df1 (incoming_column_index st) ∨
  ¬ valid_position df1 (outgoing_column_index st) ∨
  ¬ valid_position df1 (remaining_column_index st) →
  is_raise (calculate_result it st true df1 df2) ∧
  (∀ res, calculate_result it (with_custom st []) false df1 df2 = Ok res →
          calculate_result it st true df1 df2 = Raise IndexError).
Proof.
  intros _ _ Hbad.
  assert (columns_to_compare st true df1 = Raise IndexError) as Hcols.
  { unfold columns_to_compare.
    destruct (columns_at df1 (incoming_column_index st)) as [c1|e1] eqn:H1;
      simpl.
    2:{ destruct (decide (valid_position df1 (incoming_column_index st)))
          as [[? ?]%columns_at_valid|Hv%columns_at_invalid]; congruence. }
    destruct (columns_at df1 (outgoing_column_index st)) as [c2|e2] eqn:H2;
      simpl.
    2:{ destruct (decide (valid_position df1 (outgoing_column_index st)))
          as [[? ?]%columns_at_valid|Hv%columns_at_invalid]; congruence. }
    destruct (columns_at df1 (remaining_column_index st)) as [c3|e3] eqn:H3;
      simpl.
    2:{ destruct (decide (valid_position df1 (remaining_column_index st)))
          as [[? ?]%columns_at_valid|Hv%columns_at_invalid]; congruence. }
    destruct Hbad as [Hb|[Hb|Hb]]; apply columns_at_invalid in Hb; congruence. }
  split.
  - destruct (calculate_result it st true df1 df2) as [res|] eqn:Hrun; [|done].
    destruct (calculate_result_Ok _ _ _ _ _ _ Hrun)
      as (cc & dc & v1 & v2 & _ & _ & _ & _ & _ & _ & Hd & _).
    simpl in Hd. destruct Hd as (cols & ds & Hc & _). congruence.
  - intros res Hrun.
    destruct (calculate_result_Ok _ _ _ _ _ _ Hrun)
      as (cc & dc & v1 & v2 & Hcc & Hdc & Hv1 & Hv2 & Hm & He & _).
    simpl in *. unfold calculate_result. rewrite Hcc, Hdc. simpl.
    rewrite Hv1, Hv2. simpl. rewrite Hm. simpl. rewrite He. simpl.
    unfold compare_common. by rewrite Hcols.
Qed.

Lemma invalid_detailed_index_raises_witness :
  is_raise (calculate_result elements_order settings_three true
              table_three_columns table_three_columns) ∧
  (∀ res, calculate_result elements_order (with_custom settings_three [])
            false table_three_columns table_three_columns = Ok res →
          calculate_result elements_order settings_three true
            table_three_columns table_three_columns = Raise IndexError).
Proof.
  apply (invalid_detailed_index_raises elements_order settings_three
           table_three_columns table_three_columns).
  - by_compute.
  - by_compute.
  - left. unfold valid_position. simpl. lia.
Defined.

(** ** When the comparison returns *)

Lemma first_row_total df cc pos k :
  get_loc df cc = Ok pos →
  k ∈ (list_to_set ((λ r, cell r pos) <$> rows df) : gset value) →
  ¬ is_nan k →
  ∃ r, first_row df cc k = Ok r.
Proof.
  intros Hpos Hk Hnan. unfold first_row, select_rows. rewrite Hpos. simpl.
  apply elem_of_list_to_set, list_elem_of_fmap in Hk as (r & -> & Hr).
  assert (r ∈ filter (λ r', py_eq (cell r' pos) (cell r pos) = true) (rows df))
    as Hin by (apply list_elem_of_filter; split; [by apply py_eq_refl|done]).
  destruct (filter _ _) as [|x xs]; [by apply elem_of_nil in Hin|].
  simpl. eauto.
Qed.

Lemma description_of_total df cc dc pos k :
  get_loc df cc = Ok pos → dc ∈ columns df →
  k ∈ (list_to_set ((λ r, cell r pos) <$> rows df) : gset value) →
  ¬ is_nan k →
  ∃ d, description_of df cc dc k = Ok d.
Proof.
  intros Hpos Hdc Hk Hnan.
  destruct (first_row_total _ _ _ _ Hpos Hk Hnan) as [r Hr].
  rewrite (description_of_first_row _ _ _ _ _ Hr). unfold row_get.
  destruct (get_loc_elem _ _ Hdc) as [dpos ->]. simpl. eauto.
Qed.

Lemma custom_columns_labels df1 cs n col :
  (n, col) ∈ custom_columns df1 cs → col ∈ columns df1.
Proof.
  unfold custom_columns. rewrite list_elem_of_omap.
  intros ([n' i] & _ & H). simpl in H.
  destruct (columns_at df1 i) as [c|] eqn:Hc; [|done].
  injection H as _ <-. by apply py_index_Ok in Hc as [? _].
Qed.

Lemma columns_to_compare_labels st gck df1 cols n col :
  columns_to_compare st gck df1 = Ok cols →
  (n, col) ∈ cols → col ∈ columns df1.
Proof.
  unfold columns_to_compare. intros H.
  apply bind_Ok in H as (tri & Htri & [= <-]).
  rewrite elem_of_app. intros [Hin|Hin]; [|by eapply custom_columns_labels].
  destruct gck; [|injection Htri as <-; by apply elem_of_nil in Hin].
  apply bind_Ok in Htri as (c1 & H1 & Htri).
  apply bind_Ok in Htri as (c2 & H2 & Htri).
  apply bind_Ok in Htri as (c3 & H3 & [= <-]).
  apply py_index_Ok in H1 as [? _], H2 as [? _], H3 as [? _].
  repeat (apply elem_of_cons in Hin as [[= _ ->]|Hin]; [done|]).
  by apply elem_of_nil in Hin.
Qed.

Lemma columns_to_compare_total st gck df1 :
  (gck = true →
   valid_position df1 (incoming_column_index st) ∧
   valid_position df1 (outgoing_column_index st) ∧
   valid_position df1 (remaining_column_index st)) →
  ∃ cols, columns_to_compare st gck df1 = Ok cols.
Proof.
  intros Hv. unfold columns_to_compare. destruct gck; simpl; [|eauto].
  destruct (Hv eq_refl) as ([c1 ->]%columns_at_valid & [c2 ->]%columns_at_valid
                            & [c3 ->]%columns_at_valid).
  simpl. eauto.
Qed.

Lemma diff_fields_total df1 df2 row1 row2 cols acc :
  (∀ n col, (n, col) ∈ cols → col ∈ columns df1 ∧ col ∈ columns df2) →
  ∃ m, diff_fields df1 df2 row1 row2 cols acc = Ok m.
Proof.
  revert acc. induction cols as [|[n col] cols IH]; intros acc Hin; simpl;
    [eauto|].
  destruct (Hin n col) as [[p1 H1]%get_loc_elem [p2 H2]%get_loc_elem];
    [by left|].
  unfold row_get. rewrite H1, H2. simpl.
  apply IH. intros n' col' ?. apply (Hin n' col'). by right.
Qed.

(** X5. The comparison returns a result when the key and description indices
    are positions of table A whose labels table B has too, the three indices
    of the detailed comparison (if it is on) are positions of A, table B has
    the column of every active field, and no record has a blank key. *)
Theorem comparison_returns it st gck df1 df2 cc dc :
  wf_table df1 → wf_table df2 →
  columns_at df1 (code_column_index st) = Ok cc →
  columns_at df1 (name_column_index st) = Ok dc →
  cc ∈ columns df2 → dc ∈ columns df2 →
  (gck = true →
   valid_position df1 (incoming_column_index st) ∧
   valid_position df1 (outgoing_column_index st) ∧
   valid_position df1 (remaining_column_index st)) →
  (∀ n col, (n, col) ∈ active_fields st gck df1 → col ∈ columns df2) →
  (∀ k, k ∈ key_set st df1 df1 ∨ k ∈ key_set st df1 df2 → ¬ is_nan k) →
  ∃ res, calculate_result it st gck df1 df2 = Ok res.
Proof.
  intros _ _ Hcc Hdc Hcc2 Hdc2 Htri Hact Hnan.
  destruct (columns_at_get_loc _ _ _ Hcc) as [pos1 Hp1].
  destruct (get_loc_elem _ _ Hcc2) as [pos2 Hp2].
  assert (dc ∈ columns df1) as Hdc1 by (by apply py_index_Ok in Hdc as [? _]).
  assert (col_values df1 cc = Ok ((λ r, cell r pos1) <$> rows df1)) as Hv1
    by (unfold col_values; by rewrite Hp1).
  assert (col_values df2 cc = Ok ((λ r, cell r pos2) <$> rows df2)) as Hv2
    by (unfold col_values; by rewrite Hp2).
  rewrite (key_set_eq _ _ _ _ _ Hcc Hv1), (key_set_eq _ _ _ _ _ Hcc Hv2)
    in Hnan.
  unfold calculate_result. rewrite Hcc, Hdc. simpl. rewrite Hv1, Hv2. simpl.
  destruct (for_each_total (with_description df1 cc dc)
              (it (list_to_set ((λ r, cell r pos1) <$> rows df1)
                   ∖ list_to_set ((λ r, cell r pos2) <$> rows df2))))
    as [ms ->].
  { intros k [Hk _]%iter_difference. unfold with_description.
    destruct (description_of_total df1 cc dc pos1 k) as [d ->]; auto.
    simpl. eauto. }
  simpl.
  destruct (for_each_total (with_description df2 cc dc)
              (it (list_to_set ((λ r, cell r pos2) <$> rows df2)
                   ∖ list_to_set ((λ r, cell r pos1) <$> rows df1))))
    as [es ->].
  { intros k [Hk _]%iter_difference. unfold with_description.
    destruct (description_of_total df2 cc dc pos2 k) as [d ->]; auto.
    simpl. eauto. }
  simpl. destruct (gck || _); [|simpl; eauto].
  unfold compare_common.
  destruct (columns_to_compare_total st gck df1 Htri) as [cols Hcols].
  rewrite Hcols. simpl. rewrite (active_fields_eq _ _ _ _ Hcols) in Hact.
  destruct (for_each_total (compare_code df1 df2 cc dc cols)
              (it (list_to_set ((λ r, cell r pos1) <$> rows df1)
                   ∩ list_to_set ((λ r, cell r pos2) <$> rows df2))))
    as [ds ->]; [|simpl; eauto].
  intros k [Hk1 Hk2]%iter_intersection. unfold compare_code.
  destruct (first_row_total df1 cc pos1 k) as [row1 ->]; auto.
  destruct (first_row_total df2 cc pos2 k) as [row2 ->]; auto.
  simpl.
  destruct (diff_fields_total df1 df2 row1 row2 cols ∅) as [fs ->].
  { intros n col Hin. split; [|by apply (Hact n col)].
    by apply (columns_to_compare_labels _ _ _ _ n col Hcols). }
  simpl. destruct (decide _); [eauto|].
  unfold row_get. destruct (get_loc_elem _ _ Hdc1) as [dpos ->]. simpl. eauto.
Qed.

Lemma comparison_returns_witness :
  ∃ res, calculate_result elements_order default_settings true table_a table_b
         = Ok res.
Proof.
  apply (comparison_returns elements_order default_settings true
           table_a table_b "Code" "Name").
  - by_compute.
  - by_compute.
  - reflexivity.
  - reflexivity.
  - by_compute.
  - by_compute.
  - intros _. unfold valid_position. simpl. lia.
  - intros n col Hin.
    assert (Forall (λ f, f.2 ∈ columns table_b)
              (active_fields default_settings true table_a)) as HF
      by by_compute.
    by apply (proj1 (Forall_forall _ _) HF (n, col)).
  - intros k Hk.
    assert (set_Forall (λ k, ¬ is_nan k)
              (key_set default_settings table_a table_a
               ∪ key_set default_settings table_a table_b)) as HF
      by by_compute.
    apply HF. by apply elem_of_union.
Defined.

(** ** A table against itself *)

Lemma py_ne_same a : py_ne a a = true → is_nan a.
Proof.
  unfold py_ne. destruct a as [q|s|i]; simpl.
  - by rewrite bool_decide_eq_true_2.
  - by rewrite bool_decide_eq_true_2.
  - by exists i.
Qed.

Lemma field_values_same st df k col p :
  field_values st df df k col = Ok p → p.1 = p.2.
Proof.
  unfold field_values. intros H.
  apply bind_Ok in H as (row1 & H1 & H).
  apply bind_Ok in H as (row2 & H2 & H).
  apply bind_Ok in H as (a & Ha & H).
  apply bind_Ok in H as (b & Hb & [= <-]).
  simpl. congruence.
Qed.

Lemma iter_empty (it : iteration) : it ∅ = [].
Proof.
  apply Permutation_nil_r. rewrite (iter_elements it ∅).
  by rewrite elements_empty.
Qed.

(** X6. A table compared with itself has no key in [missing_codes] or
    [extra_codes], and a field is reported for a key only where the cell of
    its first record is blank: the pair then holds that blank cell twice. *)
Theorem compared_with_itself it st gck df res :
  wf_table df →
  calculate_result it st gck df df = Ok res →
  missing_codes res = [] ∧
  extra_codes res = [] ∧
  ∀ e n p, e ∈ differences res → fields e !! n = Some p →
           is_nan p.1 ∧ p.2 = p.1.
Proof.
  intros _ Hrun.
  destruct (calculate_result_Ok _ _ _ _ _ _ Hrun)
    as (cc & dc & v1 & v2 & _ & _ & Hv1 & Hv2 & Hm & He & _).
  assert (v2 = v1) as -> by congruence.
  rewrite difference_diag_L, iter_empty in Hm, He. simpl in Hm, He.
  injection Hm as <-. injection He as <-.
  split; [done|]. split; [done|].
  intros e n p He Hn.
  apply (entry_of_key _ _ _ _ _ _ _ Hrun), compare_key_spec in He.
  destruct He as (_ & _ & _ & _ & Hlast).
  apply Hlast in Hn as (pre & col & post & _ & Hv & Hne & _).
  pose proof (field_values_same _ _ _ _ _ Hv) as Hsame.
  rewrite <- Hsame in Hne. split; [by apply py_ne_same|done].
Qed.

Lemma compared_with_itself_witness :
  missing_codes result_blank = [] ∧
  extra_codes result_blank = [] ∧
  ∀ e n p, e ∈ differences result_blank → fields e !! n = Some p →
           is_nan p.1 ∧ p.2 = p.1.
Proof.
  apply (compared_with_itself elements_order default_settings true table_blank).
  - by_compute.
  - vm_compute. reflexivity.
Defined.

(** ** The two tables exchanged *)

Lemma py_ne_sym a b : py_ne b a = py_ne a b.
Proof.
  unfold py_ne. f_equal. destruct a, b; simpl; try done;
    apply bool_decide_ext; split; congruence.
Qed.

Lemma diff_fields_exchanged df1 df2 row1 row2 cols acc m :
  diff_fields df1 df2 row1 row2 cols acc = Ok m →
  diff_fields df2 df1 row2 row1 cols (prod_swap <$> acc)
  = Ok (prod_swap <$> m).
Proof.
  revert acc. induction cols as [|[n col] cols IH]; intros acc; simpl.
  - by intros [= <-].
  - intros H. apply bind_Ok in H as (a & Ha & H).
    apply bind_Ok in H as (b & Hb & H).
    rewrite Hb. simpl. rewrite Ha. simpl.
    rewrite py_ne_sym. apply IH in H.
    destruct (py_ne a b); [|done]. by rewrite fmap_insert in H.
Qed.

Lemma compare_code_exchanged df1 df2 cc dc cols c o :
  dc ∈ columns df2 →
  compare_code df1 df2 cc dc cols c = Ok o →
  ∃ o', compare_code df2 df1 cc dc cols c = Ok o' ∧
        match o', o with
        | Some e', Some e =>
            exchanged e' e ∧
            description_of df2 cc dc (code e') = Ok (description e')
        | None, None => True
        | _, _ => False
        end.
Proof.
  intros Hdc. unfold compare_code. intros H.
  apply bind_Ok in H as (row1 & Hr1 & H).
  apply bind_Ok in H as (row2 & Hr2 & H).
  apply bind_Ok in H as (fs & Hfs & H).
  rewrite Hr2. simpl. rewrite Hr1. simpl.
  apply diff_fields_exchanged in Hfs. rewrite fmap_empty in Hfs.
  rewrite Hfs. simpl.
  destruct (decide (fs = ∅)) as [->|Hne].
  - injection H as <-. rewrite fmap_empty.
    destruct (decide _); [|done]. by eexists.
  - apply bind_Ok in H as (d & Hd & [= <-]).
    destruct (decide _) as [Hempty%fmap_empty_inv|_]; [done|].
    unfold row_get at 1. destruct (get_loc_elem _ _ Hdc) as [dpos Hdpos].
    rewrite Hdpos. simpl. eexists. split; [done|]. simpl.
    split; [done|]. rewrite (description_of_first_row _ _ _ _ _ Hr2).
    unfold row_get. by rewrite Hdpos.
Qed.

Lemma for_each_related {A B B'} (f : A → res B) (g : A → res B')
    (R : B' → B → Prop) l ys :
  (∀ x y, f x = Ok y → ∃ y', g x = Ok y' ∧ R y' y) →
  for_each f l = Ok ys →
  ∃ ys', for_each g l = Ok ys' ∧ Forall2 R ys' ys.
Proof.
  intros Hfg. revert ys. induction l as [|x l IH]; intros ys; simpl.
  - intros [= <-]. by exists [].
  - intros H. apply bind_Ok in H as (y & Hy & H).
    apply bind_Ok in H as (ys0 & Hl & [= <-]).
    destruct (Hfg _ _ Hy) as (y' & -> & ?).
    destruct (IH _ Hl) as (ys' & -> & ?). simpl.
    eexists. split; [done|]. by constructor.
Qed.

Lemma appended_related (R : diff_entry → diff_entry → Prop) ds' ds :
  Forall2 (λ o' o, match o', o with
                   | Some e', Some e => R e' e
                   | None, None => True
                   | _, _ => False
                   end) ds' ds →
  Forall2 R (appended ds') (appended ds).
Proof.
  unfold appended. induction 1 as [|[e'|] [e|] ds' ds Hh _ IH]; simpl;
    try done; by constructor.
Qed.

(** The two tables exchanged, both runs iterating every set of keys alike. *)
Lemma calculate_result_exchanged it st gck df1 df2 res :
  columns df1 = columns df2 →
  calculate_result it st gck df1 df2 = Ok res →
  ∃ res',
    calculate_result it st gck df2 df1 = Ok res' ∧
    row_count_1 res' = row_count_2 res ∧
    row_count_2 res' = row_count_1 res ∧
    missing_codes res' = extra_codes res ∧
    extra_codes res' = missing_codes res ∧
    Forall2 (λ e' e, exchanged e' e ∧
                     key_description st df1 df2 (code e) = Ok (description e'))
      (differences res') (differences res).
Proof.
  intros Hcols Hrun.
  destruct (calculate_result_Ok _ _ _ _ _ _ Hrun)
    as (cc & dc & v1 & v2 & Hcc & Hdc & Hv1 & Hv2 & Hm & He & Hd & Hc1 & Hc2).
  assert (dc ∈ columns df2) as Hdc2.
  { rewrite <- Hcols. by apply py_index_Ok in Hdc as [? _]. }
  unfold calculate_result. rewrite !(columns_at_header _ _ Hcols), Hcc, Hdc.
  simpl. rewrite Hv2, Hv1. simpl. rewrite He. simpl. rewrite Hm. simpl.
  unfold key_description. rewrite Hcc, Hdc. simpl.
  destruct (gck || _).
  - destruct Hd as (cols & ds & Hcs & Hds & Hres).
    unfold compare_common. rewrite (columns_to_compare_header _ _ Hcols), Hcs.
    simpl. rewrite (comm_L (∩) (list_to_set v2)).
    destruct (for_each_related _ (compare_code df2 df1 cc dc cols)
                (λ o' o, match o', o with
                         | Some e', Some e =>
                             exchanged e' e ∧
                             description_of df2 cc dc (code e')
                             = Ok (description e')
                         | None, None => True
                         | _, _ => False
                         end) _ _
                (λ x y, compare_code_exchanged df1 df2 cc dc cols x y Hdc2) Hds)
      as (ds' & -> & HF).
    simpl. eexists. split; [done|]. simpl. rewrite Hres.
    repeat (split; [done|]).
    apply appended_related. eapply Forall2_impl; [exact HF|].
    intros [e'|] [e|]; simpl; try done.
    intros [[Hcode Hf] Hdesc]. split; [done|]. by rewrite <- Hcode.
  - simpl. eexists. split; [done|]. simpl. rewrite Hd.
    repeat (split; [done|]). constructor.
Qed.

(** X7. With the same header in both tables, exchanging the tables exchanges
    the row counts and the members of [missing_codes] and [extra_codes], and
    [differences] holds the same keys, each pair (value in A, value in B)
    turned round and the description read from the other table.  The order
    of the three lists is that of the sets of the exchanged run, which need
    not iterate as those of the first run do: the lists agree up to order. *)
Theorem tables_exchanged it it' st gck df1 df2 res :
  wf_table df1 → wf_table df2 →
  columns df1 = columns df2 →
  calculate_result it st gck df1 df2 = Ok res →
  ∃ res',
    calculate_result it' st gck df2 df1 = Ok res' ∧
    row_count_1 res' = row_count_2 res ∧
    row_count_2 res' = row_count_1 res ∧
    missing_codes res' ≡ₚ extra_codes res ∧
    extra_codes res' ≡ₚ missing_codes res ∧
    ∃ ds, ds ≡ₚ differences res ∧
          Forall2 (λ e' e, exchanged e' e ∧
                           key_description st df1 df2 (code e)
                           = Ok (description e'))
            (differences res') ds.
Proof.
  intros _ _ Hcols Hrun.
  destruct (calculate_result_exchanged _ _ _ _ _ _ Hcols Hrun)
    as (res0 & Hrun0 & Hc1 & Hc2 & Hm & He & Hd).
  destruct (calculate_result_reorder it it' _ _ _ _ _ Hrun0)
    as (res' & Hrun' & Hc1' & Hc2' & Hm' & He' & Hd').
  exists res'. split; [done|].
  split; [congruence|]. split; [congruence|].
  split; [by rewrite <- Hm', Hm|]. split; [by rewrite <- He', He|].
  destruct (Permutation_Forall2 Hd' Hd) as (ds & Hds & HF).
  exists ds. by split.
Qed.

Lemma tables_exchanged_witness :
  ∃ res',
    calculate_result reverse_order default_settings true table_b table_a
    = Ok res' ∧
    row_count_1 res' = row_count_2 result_ab ∧
    row_count_2 res' = row_count_1 result_ab ∧
    missing_codes res' ≡ₚ extra_codes result_ab ∧
    extra_codes res' ≡ₚ missing_codes result_ab ∧
    ∃ ds, ds ≡ₚ differences result_ab ∧
          Forall2 (λ e' e, exchanged e' e ∧
                           key_description default_settings table_a table_b
                             (code e)
                           = Ok (description e'))
            (differences res') ds.
Proof.
  apply (tables_exchanged elements_order reverse_order default_settings true
           table_a table_b result_ab).
  - by_compute.
  - by_compute.
  - reflexivity.
  - vm_compute. reflexivity.
Defined.

Example run_ba :
  calculate_result elements_order default_settings true table_b table_a
  = Ok result_ba.
Proof. vm_compute. reflexivity. Qed.

(** * Reading the files and showing the result *)

(** ** [compare_files] *)

Lemma drop_last_snoc {A} (l : list A) x : drop_last (l ++ [x]) = l.
Proof.
  unfold drop_last. rewrite length_app. simpl.
  replace (length l + 1 - 1)%nat with (length l) by lia.
  by rewrite take_app_length.
Qed.

Lemma drop_last_short {A} (l : list A) : (length l < 2)%nat → drop_last l = [] ∨ l = [].
Proof.
  destruct l as [|x [|y l]]; simpl; intros; [by right|by left|lia].
Qed.

Lemma snoc_of_drop_last {A} (l : list A) x xs :
  drop_last l = x :: xs → ∃ y, l = x :: xs ++ [y].
Proof.
  unfold drop_last. intros H.
  assert (length l ≠ 0)%nat as Hlen by (destruct l; [done|simpl; lia]).
  pose proof (take_drop (length l - 1) l) as Hl. rewrite H in Hl.
  assert (length (drop (length l - 1) l) = 1)%nat as H1
    by (rewrite length_drop; lia).
  destruct (drop (length l - 1) l) as [|y [|z t]]; simpl in H1; try lia.
  exists y. by rewrite <- Hl.
Qed.

Lemma prepare_Ok s df :
  prepare s = Ok df ↔
  ∃ header body last,
    s = header :: body ++ [last] ∧
    df = {| columns := label_of <$> header; rows := body |}.
Proof.
  unfold prepare. split.
  - intros H. cbv zeta in H.
    destruct (drop_last s) as [|h b] eqn:Hd; [done|]. simpl in H.
    injection H as <-. apply snoc_of_drop_last in Hd as [l ->].
    by exists h, b, l.
  - intros (h & b & l & -> & ->). cbv zeta.
    change (h :: b ++ [l]) with ((h :: b) ++ [l]).
    by rewrite drop_last_snoc.
Qed.

Lemma prepare_short s : (length s < 2)%nat → prepare s = Raise IndexError.
Proof.
  intros Hs. unfold prepare.
  by destruct (drop_last_short s Hs) as [->| ->].
Qed.

Lemma prepare_raise s e : prepare s = Raise e → e = IndexError.
Proof.
  unfold prepare. cbv zeta. destruct (drop_last s); simpl; congruence.
Qed.

(** X9. A sheet with fewer than two rows (no header row left once the closing
    row is removed) never gets a result window: [compare_files] shows the
    error box for an IndexError. *)
Theorem short_sheet_is_an_error it st gck read_excel p1 p2 s1 s2 :
  p1 ≠ "" → p2 ≠ "" →
  read_excel p1 = Some s1 → read_excel p2 = Some s2 →
  wf_sheet s1 → wf_sheet s2 →
  (length s1 < 2 ∨ length s2 < 2)%nat →
  compare_files it st gck read_excel (Some p1) (Some p2)
  = ProcessingError (Raised IndexError).
Proof.
  intros Hp1 Hp2 Hr1 Hr2 _ _ Hshort. unfold compare_files. simpl.
  rewrite !bool_decide_eq_false_2 by done. simpl. rewrite Hr1, Hr2.
  unfold compare_sheets.
  destruct (prepare s1) as [df1|e] eqn:H1; simpl.
  - destruct Hshort as [Hs|Hs]; [by rewrite prepare_short in H1|].
    by rewrite (prepare_short _ Hs).
  - by rewrite (prepare_raise _ _ H1).
Qed.

Lemma short_sheet_is_an_error_witness :
  compare_files elements_order default_settings true
    (λ p, if bool_decide (p = "a.xls") then Some sheet_a
          else Some [VStr <$> hdr])
    (Some "a.xls") (Some "b.xls")
  = ProcessingError (Raised IndexError).
Proof.
  apply (short_sheet_is_an_error elements_order default_settings true _
           "a.xls" "b.xls" sheet_a [VStr <$> hdr]).
  - discriminate.
  - discriminate.
  - reflexivity.
  - reflexivity.
  - by_compute.
  - by_compute.
  - right. simpl. lia.
Defined.

(** X10. The result window opens exactly when both files are selected and read,
    each sheet is a header row, records and a closing row, and the comparison
    of the records under the header rows returns.  The first row of a sheet
    is never a record and its last row is never read; the row counts shown
    are two less than the rows of the sheets. *)
Theorem result_window_rows it st gck read_excel file1_path file2_path r :
  (∀ p s, read_excel p = Some s → wf_sheet s) →
  compare_files it st gck read_excel file1_path file2_path = ResultWindow r ↔
  ∃ p1 p2 h1 b1 l1 h2 b2 l2,
    file1_path = Some p1 ∧ file2_path = Some p2 ∧ p1 ≠ "" ∧ p2 ≠ "" ∧
    read_excel p1 = Some (h1 :: b1 ++ [l1]) ∧
    read_excel p2 = Some (h2 :: b2 ++ [l2]) ∧
    calculate_result it st gck
      {| columns := label_of <$> h1; rows := b1 |}
      {| columns := label_of <$> h2; rows := b2 |} = Ok r ∧
    row_count_1 r = length b1 ∧ row_count_2 r = length b2.
Proof.
  intros _. unfold compare_files. split.
  - destruct file1_path as [p1|], file2_path as [p2|]; simpl; try done.
    2:{ by rewrite orb_true_r. }
    do 2 case_bool_decide; simpl; try done.
    destruct (read_excel p1) as [s1|] eqn:Hr1; [|done].
    destruct (read_excel p2) as [s2|] eqn:Hr2; [|done].
    destruct (compare_sheets it st gck s1 s2) as [r'|] eqn:Hc; [|done].
    intros [= ->]. unfold compare_sheets in Hc.
    apply bind_Ok in Hc as (df1 & (h1 & b1 & l1 & -> & ->)%prepare_Ok & Hc).
    apply bind_Ok in Hc as (df2 & (h2 & b2 & l2 & -> & ->)%prepare_Ok & Hc).
    exists p1, p2, h1, b1, l1, h2, b2, l2. repeat (split; [done|]).
    by destruct (calculate_result_Ok _ _ _ _ _ _ Hc)
      as (? & ? & ? & ? & _ & _ & _ & _ & _ & _ & _ & ? & ?).
  - intros (p1 & p2 & h1 & b1 & l1 & h2 & b2 & l2 & -> & -> & Hp1 & Hp2
            & Hr1 & Hr2 & Hc & _).
    simpl. rewrite !bool_decide_eq_false_2 by done. simpl. rewrite Hr1, Hr2.
    unfold compare_sheets.
    rewrite (proj2 (prepare_Ok (h1 :: b1 ++ [l1]) _)) by eauto. simpl.
    rewrite (proj2 (prepare_Ok (h2 :: b2 ++ [l2]) _)) by eauto. simpl.
    by rewrite Hc.
Qed.

Lemma result_window_rows_witness :
  compare_files elements_order default_settings true
    (λ p, if bool_decide (p = "a.xls") then Some sheet_a else Some sheet_b)
    (Some "a.xls") (Some "b.xls")
  = ResultWindow result_ab.
Proof.
  apply (result_window_rows elements_order default_settings true
           (λ p, if bool_decide (p = "a.xls") then Some sheet_a
                 else Some sheet_b)).
  - intros p s. case_bool_decide; intros [= <-]; by_compute.
  - exists "a.xls", "b.xls", (VStr <$> hdr), (rows table_a),
      (item "Total" "" 17 7 10), (VStr <$> hdr), (rows table_b),
      (item "Total" "" 13 5 6).
    repeat split; try done.
Defined.

(** ** [open_result_window] *)

Lemma is_empty_nil {A} (l : list A) : is_empty l = true ↔ l = [].
Proof. by destruct l. Qed.

Lemma no_differences_line result :
  NoDifferencesFound ∈ open_result_window result ↔
  missing_codes result = [] ∧ extra_codes result = [] ∧
  differences result = [].
Proof.
  assert (∀ l : list (value * value),
            NoDifferencesFound ∉ code_line <$> l) as Hcode.
  { intros l (p & ? & _)%list_elem_of_fmap. done. }
  assert (∀ l : list diff_entry,
            NoDifferencesFound ∉ l ≫= detailed_item) as Hitem.
  { intros l (e & Hin & _)%list_elem_of_bind. unfold detailed_item in Hin.
    repeat (apply elem_of_cons in Hin as [?|Hin]; [done|]).
    by apply elem_of_nil in Hin. }
  rewrite <- !is_empty_nil, <- !andb_true_iff, andb_assoc.
  unfold open_result_window.
  destruct (is_empty (missing_codes result) && is_empty (extra_codes result)
            && is_empty (differences result)) eqn:Hall.
  - split; [done|]. intros _. rewrite !elem_of_app. do 4 right. by left.
  - split; [|done]. intros H.
    repeat first
      [ apply elem_of_cons in H as [?|H]; [done|]
      | apply elem_of_app in H as [H|H]
      | by apply elem_of_nil in H
      | by apply Hcode in H
      | by apply Hitem in H
      | destruct (is_empty _) ].
Qed.

(** X11. The window reports that no differences were found exactly when the two
    tables have the same set of keys and no active comparison field differs
    between the first records of any key: neither the row counts nor any
    other column or record enters into it. *)
Theorem no_differences_reported it st gck df1 df2 res :
  wf_table df1 → wf_table df2 →
  calculate_result it st gck df1 df2 = Ok res →
  NoDifferencesFound ∈ open_result_window res ↔
  key_set st df1 df1 = key_set st df1 df2 ∧
  ∀ k n col, k ∈ key_set st df1 df1 →
             (n, col) ∈ active_fields st gck df1 →
             ¬ differs st df1 df2 k col.
Proof.
  intros _ _ Hrun. rewrite no_differences_line. split.
  - intros (Hm & Hx & Hd).
    assert (key_set st df1 df1 = key_set st df1 df2) as Hkeys.
    { apply set_eq. intros k. split; intros Hk.
      - destruct (decide (k ∈ key_set st df1 df2)) as [|Hout]; [done|].
        destruct (missing_complete _ _ _ _ _ _ _ Hrun Hk Hout) as (d & Hin & _).
        rewrite Hm in Hin. by apply elem_of_nil in Hin.
      - destruct (decide (k ∈ key_set st df1 df1)) as [|Hout]; [done|].
        destruct (extra_complete _ _ _ _ _ _ _ Hrun Hk Hout) as (d & Hin & _).
        rewrite Hx in Hin. by apply elem_of_nil in Hin. }
    split; [done|]. intros k n col Hk Hin Hdiff.
    assert (k ∈ key_set st df1 df2) as Hk2 by (by rewrite <- Hkeys).
    destruct (differing_field_recorded _ _ _ _ _ _ k n col Hrun Hk Hk2 Hin Hdiff)
      as (e & He & _).
    rewrite Hd in He. by apply elem_of_nil in He.
  - intros [Hkeys Hequal]. split; [|split]; apply elem_of_nil_inv.
    + intros [k d] Hin. apply (missing_spec _ _ _ _ _ _ Hrun) in Hin.
      rewrite Hkeys in Hin. tauto.
    + intros [k d] Hin. apply (extra_spec _ _ _ _ _ _ Hrun) in Hin.
      rewrite Hkeys in Hin. tauto.
    + intros e Hin.
      pose proof (proj1 (differences_spec _ _ _ _ _ _ Hrun e) Hin)
        as (_ & Hk & _ & Hc).
      apply compare_key_spec in Hc as (_ & _ & (n & col & ? & ?) & _).
      by apply (Hequal (code e) n col).
Qed.

Lemma no_differences_reported_witness :
  NoDifferencesFound
  ∈ open_result_window
      {| row_count_1 := 3; row_count_2 := 2;
         missing_codes := []; extra_codes := []; differences := [] |} ↔
  key_set default_settings table_a_dup table_a_dup
  = key_set default_settings table_a_dup table_a ∧
  ∀ k n col, k ∈ key_set default_settings table_a_dup table_a_dup →
             (n, col) ∈ active_fields default_settings true table_a_dup →
             ¬ differs default_settings table_a_dup table_a k col.
Proof.
  apply (no_differences_reported elements_order default_settings true
           table_a_dup table_a).
  - by_compute.
  - by_compute.
  - vm_compute. reflexivity.
Defined.

(** A repeated key and a changed record behind it: the window shows a row
    difference of one and reports that no differences were found. *)
Example repeated_key_report :
  open_result_window
    {| row_count_1 := 3; row_count_2 := 2;
       missing_codes := []; extra_codes := []; differences := [] |}
  = [DoubleRule; File1RowCount 3; File2RowCount 2; RowDifference 1;
     DoubleRule; BlankLine; NoDifferencesFound].
Proof. reflexivity. Qed.

(** * The settings window *)

(** ** Texts of digits *)

Lemma is_digit_not_space c : Py.is_digit c = true → Py.is_space c = false.
Proof.
  destruct c as [[|] [|] [|] [|] [|] [|] [|] [|]]; vm_compute; congruence.
Qed.

Lemma is_digit_parse c d :
  Py.is_digit c = true → ∃ d', uint_of_char c (Some d) = Some d'.
Proof.
  destruct c as [[|] [|] [|] [|] [|] [|] [|] [|]]; vm_compute;
    (discriminate || eauto).
Qed.

Lemma all_digits_parse s :
  Py.all_digits s = true → ∃ d, NilEmpty.uint_of_string s = Some d.
Proof.
  induction s as [|c s IH]; simpl; [eauto|].
  intros [Hc Hs]%andb_true_iff. destruct (IH Hs) as [d ->].
  by apply is_digit_parse.
Qed.

Lemma all_digits_print d : Py.all_digits (NilEmpty.string_of_uint d) = true.
Proof. induction d; simpl; done. Qed.

(** A text that [isdigit] accepts converts, and to a number that is not
    negative. *)
Lemma isdigit_int s :
  Py.isdigit s = true → ∃ z : Z, Py.int s = Some z ∧ (0 ≤ z)%Z.
Proof.
  unfold Py.isdigit, Py.int, NilZero.uint_of_string.
  destruct s as [|c s]; [done|]. intros [d ->]%all_digits_parse.
  eexists. split; [done|]. lia.
Qed.

Lemma str_nonneg z :
  (0 ≤ z)%Z → ∃ d, d ≠ Decimal.Nil ∧ Py.str z = NilEmpty.string_of_uint d ∧
               Z.of_N (N.of_uint d) = z.
Proof.
  intros Hz. unfold Py.str. destruct z as [|p|p]; [| |lia].
  - by exists (Decimal.D0 Decimal.Nil).
  - exists (Pos.to_uint p). simpl.
    pose proof (DecimalPos.Unsigned.to_uint_nonnil p) as Hnil.
    split; [done|]. split.
    + unfold NilZero.string_of_uint. by destruct (Pos.to_uint p).
    + unfold N.of_uint. by rewrite DecimalPos.Unsigned.of_to.
Qed.

Lemma isdigit_str z : (0 ≤ z)%Z → Py.isdigit (Py.str z) = true.
Proof.
  intros (d & Hd & -> & _)%str_nonneg. unfold Py.isdigit.
  pose proof (all_digits_print d) as Hall.
  destruct d; simpl in *; done.
Qed.

Lemma int_str z : (0 ≤ z)%Z → Py.int (Py.str z) = Some z.
Proof.
  intros (d & Hd & -> & Hz)%str_nonneg. unfold Py.int, NilZero.uint_of_string.
  pose proof (NilEmpty.usu d) as Hu.
  destruct (NilEmpty.string_of_uint d) eqn:Hs.
  - destruct d; simpl in Hs; done.
  - rewrite Hu. by rewrite Hz.
Qed.

Lemma isdigit_str_negative z : z < 0 → Py.isdigit (Py.strip (Py.str z)) = false.
Proof.
  intros Hz. destruct z as [|p|p]; [lia|lia|].
  unfold Py.str. simpl.
  assert (∀ d, d ≠ Decimal.Nil →
            Py.rstrip (NilZero.string_of_uint d) = NilZero.string_of_uint d)
    as Hr.
  { intros d Hd. unfold NilZero.string_of_uint.
    assert (∀ d', Py.rstrip (NilEmpty.string_of_uint d')
                  = NilEmpty.string_of_uint d') as Hgen.
    { induction d' as [|d' IH|d' IH|d' IH|d' IH|d' IH|d' IH|d' IH|d' IH
                          |d' IH|d' IH]; simpl; [done|..];
        rewrite IH; by destruct (NilEmpty.string_of_uint d'). }
    destruct d; [done|..]; apply Hgen. }
  unfold Py.strip.
  assert (Py.rstrip (String "-" (NilZero.string_of_uint (Pos.to_uint p)))
          = String "-" (NilZero.string_of_uint (Pos.to_uint p))) as ->.
  { simpl. rewrite Hr by apply DecimalPos.Unsigned.to_uint_nonnil.
    pose proof (DecimalPos.Unsigned.to_uint_nonnil p).
    unfold NilZero.string_of_uint.
    destruct (Pos.to_uint p); simpl; done. }
  done.
Qed.

Lemma rstrip_digits d :
  Py.rstrip (NilEmpty.string_of_uint d) = NilEmpty.string_of_uint d.
Proof.
  induction d as [|d IH|d IH|d IH|d IH|d IH|d IH|d IH|d IH|d IH|d IH];
    simpl; [done|..]; rewrite IH; by destruct (NilEmpty.string_of_uint d).
Qed.

Lemma lstrip_digits d :
  Py.lstrip (NilEmpty.string_of_uint d) = NilEmpty.string_of_uint d.
Proof. by destruct d. Qed.

Lemma strip_str z : (0 ≤ z)%Z → Py.strip (Py.str z) = Py.str z.
Proof.
  intros (d & _ & -> & _)%str_nonneg. unfold Py.strip.
  by rewrite rstrip_digits, lstrip_digits.
Qed.

(** ** Leading and trailing blanks *)

Lemma rstrip_idem s : Py.rstrip (Py.rstrip s) = Py.rstrip s.
Proof.
  induction s as [|c s IH]; [done|]. simpl.
  destruct (Py.rstrip s) as [|c' t] eqn:Hs.
  - destruct (Py.is_space c) eqn:Hc; simpl; [done|]. by rewrite Hc.
  - simpl. simpl in IH. by rewrite IH.
Qed.

Lemma rstrip_lstrip s : Py.rstrip s = s → Py.rstrip (Py.lstrip s) = Py.lstrip s.
Proof.
  induction s as [|c s IH]; [done|]. simpl.
  destruct (Py.is_space c) eqn:Hc.
  - destruct (Py.rstrip s) as [|c' t] eqn:Hs; [done|].
    intros [= <-]. by apply IH.
  - intros H. simpl. destruct (Py.rstrip s); by rewrite ?Hc.
Qed.

Lemma lstrip_idem s : Py.lstrip (Py.lstrip s) = Py.lstrip s.
Proof.
  induction s as [|c s IH]; [done|]. simpl.
  destruct (Py.is_space c) eqn:Hc; [done|]. simpl. by rewrite Hc.
Qed.

(** Stripping a stripped text changes nothing. *)
Lemma strip_idem s : Py.strip (Py.strip s) = Py.strip s.
Proof.
  unfold Py.strip.
  by rewrite (rstrip_lstrip (Py.rstrip s) (rstrip_idem s)), lstrip_idem.
Qed.

(** ** What the two loops of [save_settings] accept *)

Lemma read_entries_Accepted entries new_settings :
  SettingsWindow.read_entries entries = Accepted new_settings ↔
  Forall2 (λ e kv, kv.1 = e.1 ∧ Py.isdigit (Py.strip e.2) = true ∧
                   Py.int (Py.strip e.2) = Some kv.2)
    entries new_settings.
Proof.
  revert new_settings.
  induction entries as [|[key text] entries IH]; intros ns; simpl.
  - split; [intros [= <-]; constructor|by inversion 1].
  - destruct (Py.isdigit (Py.strip text)) eqn:Hd; simpl.
    + destruct (Py.int (Py.strip text)) as [z|] eqn:Hi.
      * destruct (SettingsWindow.read_entries entries) as [ns'|m] eqn:Hr.
        { split.
          - intros [= <-]. constructor; [done|]. by apply IH.
          - inversion 1 as [|? [k z'] ? ns0 (Hk & _ & Hz) HF]; subst.
            simpl in *. apply IH in HF. congruence. }
        split; [done|].
        inversion 1 as [|? ? ? ns0 _ HF]; subst. by apply IH in HF.
      * split; [done|].
        inversion 1 as [|? ? ? ? (_ & _ & ?)]; simpl in *; congruence.
    + split; [done|].
      inversion 1 as [|? ? ? ? (_ & ? & _)]; simpl in *; congruence.
Qed.

Lemma read_entries_Rejected entries m :
  SettingsWindow.read_entries entries = Rejected m →
  ∃ key text, (key, text) ∈ entries ∧ m = InvalidValue key ∧
              Py.isdigit (Py.strip text) = false.
Proof.
  induction entries as [|[key text] entries IH]; simpl; [done|].
  destruct (Py.isdigit (Py.strip text)) eqn:Hd; simpl.
  - destruct (isdigit_int _ Hd) as (z & -> & _).
    destruct (SettingsWindow.read_entries entries) as [ns'|m']; [done|].
    intros [= <-]. destruct (IH eq_refl) as (k & t & ? & ? & ?).
    exists k, t. split; [by right|done].
  - intros [= <-]. exists key, text. split; [by left|done].
Qed.

Lemma read_custom_Accepted custom_entries cs :
  SettingsWindow.read_custom custom_entries = Accepted cs →
  Forall (λ c : string * Z,
            c.1 ≠ "" ∧ Py.strip c.1 = c.1 ∧ (0 ≤ c.2)%Z) cs.
Proof.
  revert cs.
  induction custom_entries as [|[name index] rows IH]; intros cs; simpl.
  - intros [= <-]. constructor.
  - destruct (bool_decide_reflect (Py.strip name = "")) as [Hn|Hn],
      (bool_decide_reflect (Py.strip index = "")) as [Hi|Hi]; simpl;
      try done; [by apply IH|].
    destruct (Py.isdigit (Py.strip index)) eqn:Hd; simpl; [|done].
    destruct (isdigit_int _ Hd) as (z & -> & Hz).
    destruct (SettingsWindow.read_custom rows) as [cs'|m]; [|done].
    intros [= <-]. constructor; [|by apply IH].
    simpl. by rewrite strip_idem.
Qed.

Lemma read_custom_Rejected custom_entries m :
  SettingsWindow.read_custom custom_entries = Rejected m →
  m = MissingInformation ∨ ∃ name, m = InvalidCustomIndex name.
Proof.
  induction custom_entries as [|[name index] rows IH]; simpl; [done|].
  destruct (bool_decide_reflect (Py.strip name = "")) as [Hn|Hn],
    (bool_decide_reflect (Py.strip index = "")) as [Hi|Hi]; simpl;
    try done; try (intros [= <-]; by left).
  destruct (Py.isdigit (Py.strip index)) eqn:Hd; simpl.
  - destruct (isdigit_int _ Hd) as (z & -> & Hz).
    destruct (SettingsWindow.read_custom rows) as [cs'|m']; [done|].
    intros [= <-]. by apply IH.
  - intros [= <-]. right. by eexists.
Qed.

Lemma no_negative_index (ns cs : list (string * Z)) :
  Forall (λ kv, (0 ≤ kv.2)%Z) ns → Forall (λ c, (0 ≤ c.2)%Z) cs →
  existsb (λ v, bool_decide (v < 0)) (ns.*2 ++ cs.*2) = false.
Proof.
  intros Hn Hc. apply not_true_is_false. intros H.
  apply existsb_exists in H as (v & Hin & Hv).
  apply bool_decide_eq_true in Hv.
  apply list_elem_of_In, elem_of_app in Hin as [Hin|Hin];
    apply list_elem_of_fmap in Hin as (kv & -> & Hin).
  - apply (proj1 (Forall_forall _ _) Hn) in Hin. lia.
  - apply (proj1 (Forall_forall _ _) Hc) in Hin. lia.
Qed.

(** ** [save_settings] *)

(** X12. When every text of the window is ASCII and at most 4300 characters
    long ([texts_typed]), [save_settings] ends in one of five boxes: an entry
    field that is not a text of digits, a custom row whose index is not one,
    a custom row with only one of name and index, the settings saved, or the
    file not written.  On these texts the box for negative indices (lines
    420-428) is never shown, since a text of digits converts to a number that
    is not negative, and the conversion of an accepted text does not fail, so
    the handler of lines 450-455 is not reached.  Longer texts of digits and
    digits outside ASCII, which [int] may refuse, are outside the statement. *)
Theorem save_settings_messages settings entries custom_entries written :
  texts_typed entries custom_entries →
  let m := (SettingsWindow.save_settings settings entries custom_entries
              written).1 in
  m ≠ NegativeIndex ∧ m ≠ UnexpectedError ∧
  ((∃ key text, (key, text) ∈ entries ∧ m = InvalidValue key ∧
                Py.isdigit (Py.strip text) = false) ∨
   (∃ name, m = InvalidCustomIndex name) ∨
   m = MissingInformation ∨
   (m = SettingsSaved ∧ written = true) ∨
   (m = SaveFailed ∧ written = false)).
Proof.
  intros _. unfold SettingsWindow.save_settings.
  destruct (SettingsWindow.read_entries entries) as [ns|m] eqn:He; simpl.
  2:{ destruct (read_entries_Rejected _ _ He) as (k & t & ? & -> & ?).
      split; [done|]. split; [done|]. left. by exists k, t. }
  destruct (SettingsWindow.read_custom custom_entries) as [cs|m] eqn:Hc; simpl.
  2:{ destruct (read_custom_Rejected _ _ Hc) as [->|[n ->]];
        (split; [done|]); (split; [done|]); eauto. }
  rewrite no_negative_index.
  - destruct written; simpl; (split; [done|]); (split; [done|]).
    + do 3 right. by left.
    + do 4 right. done.
  - apply read_entries_Accepted in He.
    apply Forall_forall. intros [k z] Hin.
    apply list_elem_of_lookup in Hin as [i Hi].
    destruct (Forall2_lookup_r _ _ _ _ _ He Hi) as ([k' t] & _ & _ & Hd & Hz).
    simpl in *. destruct (isdigit_int _ Hd) as (z' & Hz' & ?). congruence.
  - apply read_custom_Accepted in Hc.
    eapply Forall_impl; [exact Hc|]. by intros c (_ & _ & ?).
Qed.

Lemma save_settings_messages_witness :
  let m := (SettingsWindow.save_settings SettingsManager.default_settings
              entries_typed rows_typed true).1 in
  m ≠ NegativeIndex ∧ m ≠ UnexpectedError ∧
  ((∃ key text, (key, text) ∈ entries_typed ∧ m = InvalidValue key ∧
                Py.isdigit (Py.strip text) = false) ∨
   (∃ name, m = InvalidCustomIndex name) ∨
   m = MissingInformation ∨
   (m = SettingsSaved ∧ true = true) ∨
   (m = SaveFailed ∧ true = false)).
Proof.
  apply (save_settings_messages SettingsManager.default_settings
           entries_typed rows_typed true).
  by_compute.
Defined.

(** The rows [read_custom] keeps: those with a name, in the order of the
    window; the others are blank and dropped. *)
Lemma read_custom_rows custom_entries cs :
  SettingsWindow.read_custom custom_entries = Accepted cs →
  Forall2 (λ (r : string * string) (c : string * Z),
             c.1 = Py.strip r.1 ∧ Py.int (Py.strip r.2) = Some c.2)
    (filter named custom_entries) cs.
Proof.
  revert cs.
  induction custom_entries as [|[name index] rows IH]; intros cs; simpl.
  - intros [= <-]. constructor.
  - rewrite filter_cons. unfold named at 1. simpl.
    destruct (bool_decide_reflect (Py.strip name = "")) as [Hn|Hn],
      (bool_decide_reflect (Py.strip index = "")) as [Hi|Hi]; simpl;
      try done.
    + rewrite decide_False by (by intros []). by apply IH.
    + rewrite decide_True by done.
      destruct (Py.isdigit (Py.strip index)) eqn:Hd; simpl; [|done].
      destruct (Py.int (Py.strip index)) as [z|] eqn:Hz; [|done].
      destruct (SettingsWindow.read_custom rows) as [cs'|m]; [|done].
      intros [= <-]. constructor; [done|]. by apply IH.
Qed.

Lemma read_entries_nonneg entries ns :
  SettingsWindow.read_entries entries = Accepted ns →
  Forall (λ kv : string * Z, (0 ≤ kv.2)%Z) ns.
Proof.
  intros He%read_entries_Accepted.
  apply Forall_forall. intros [k z] Hin.
  apply list_elem_of_lookup in Hin as [i Hi].
  destruct (Forall2_lookup_r _ _ _ _ _ He Hi) as ([k' t] & _ & _ & Hd & Hz).
  simpl in *. destruct (isdigit_int _ Hd) as (z' & Hz' & ?). congruence.
Qed.

(** A run of [save_settings] that stores. *)
Lemma save_settings_stored settings entries custom_entries written :
  stored (SettingsWindow.save_settings settings entries custom_entries
            written).1 →
  ∃ ns cs,
    SettingsWindow.read_entries entries = Accepted ns ∧
    SettingsWindow.read_custom custom_entries = Accepted cs ∧
    (SettingsWindow.save_settings settings entries custom_entries written).2
    = SettingsWindow.store settings ns cs.
Proof.
  unfold SettingsWindow.save_settings.
  destruct (SettingsWindow.read_entries entries) as [ns|m] eqn:He; simpl.
  2:{ destruct (read_entries_Rejected _ _ He) as (k & t & ? & -> & ?).
      by intros [|]. }
  destruct (SettingsWindow.read_custom custom_entries) as [cs|m] eqn:Hc; simpl.
  2:{ destruct (read_custom_Rejected _ _ Hc) as [->|[n ->]]; by intros [|]. }
  rewrite no_negative_index.
  - intros _. by exists ns, cs.
  - by eapply read_entries_nonneg.
  - apply read_custom_Accepted in Hc.
    eapply Forall_impl; [exact Hc|]. by intros c (_ & _ & ?).
Qed.

(** A run of [save_settings] that rejects. *)
Lemma save_settings_rejected settings entries custom_entries written :
  ¬ stored (SettingsWindow.save_settings settings entries custom_entries
              written).1 →
  (SettingsWindow.save_settings settings entries custom_entries written).2
  = settings.
Proof.
  unfold SettingsWindow.save_settings, stored.
  destruct (SettingsWindow.read_entries entries) as [ns|m]; [|done].
  destruct (SettingsWindow.read_custom custom_entries) as [cs|m]; [|done].
  destruct (existsb _ _); [done|].
  destruct written; simpl; intros []; auto.
Qed.

(** The five keys of the window after [store]. *)
Lemma store_settings_in_use settings z1 z2 z3 z4 z5 cs :
  settings_in_use
    (SettingsWindow.store settings
       [("code_column_index", z1); ("name_column_index", z2);
        ("incoming_column_index", z3); ("outgoing_column_index", z4);
        ("remaining_column_index", z5)] cs)
  = Some {| code_column_index := z1; name_column_index := z2;
            incoming_column_index := z3; outgoing_column_index := z4;
            remaining_column_index := z5; custom_comparisons := cs |}.
Proof.
  unfold settings_in_use, index_setting, custom_setting, SettingsManager.get,
    SettingsWindow.store, SettingsManager.set. simpl.
  repeat (rewrite ?lookup_insert_eq; rewrite ?lookup_insert_ne by done; simpl).
  done.
Qed.

Lemma entries_of_config (entries : list (string * string)) :
  entries.*1 = SettingsWindow.settings_config →
  ∃ t1 t2 t3 t4 t5,
    entries = [("code_column_index", t1); ("name_column_index", t2);
               ("incoming_column_index", t3); ("outgoing_column_index", t4);
               ("remaining_column_index", t5)].
Proof.
  unfold SettingsWindow.settings_config.
  destruct entries as [|[k1 t1] [|[k2 t2] [|[k3 t3] [|[k4 t4] [|[k5 t5] [|]]]]]];
    simpl; try done.
  intros [= -> -> -> -> ->]. by exists t1, t2, t3, t4, t5.
Qed.

(** X13. When [save_settings] passes its validation, with or without the file
    written, the settings [calculate_result] reads afterwards are those of
    the window: each index is the number its entry field holds, none is
    negative, and the custom comparisons are the rows with a name, in the
    order of the window, under the name without the blanks around it.  The
    texts are ASCII and no longer than 4300 characters, see [Py.typed]. *)
Theorem saved_settings_as_entered settings entries custom_entries written :
  texts_typed entries custom_entries →
  entries.*1 = SettingsWindow.settings_config →
  stored (SettingsWindow.save_settings settings entries custom_entries
            written).1 →
  ∃ st,
    settings_in_use
      (SettingsWindow.save_settings settings entries custom_entries written).2
    = Some st ∧
    valid_settings st ∧
    Forall2 (λ (e : string * string) z, Py.int (Py.strip e.2) = Some z)
      entries (index_settings st) ∧
    Forall2 (λ (r : string * string) (c : string * Z),
               c.1 = Py.strip r.1 ∧ Py.int (Py.strip r.2) = Some c.2)
      (filter named custom_entries) (custom_comparisons st).
Proof.
  intros _ (t1 & t2 & t3 & t4 & t5 & ->)%entries_of_config
    (ns & cs & He & Hc & ->)%save_settings_stored.
  pose proof (read_entries_nonneg _ _ He) as Hpos.
  apply read_entries_Accepted in He.
  repeat match goal with
         | H : Forall2 _ (_ :: _) _ |- _ =>
             apply Forall2_cons_inv_l in H as ([??] & ? & (? & _ & ?) & H & ->)
         | H : Forall2 _ [] _ |- _ => apply Forall2_nil_inv_l in H as ->
         end.
  simpl in *. subst.
  rewrite store_settings_in_use. eexists. split; [done|].
  repeat match goal with
         | H : Forall _ (_ :: _) |- _ => apply Forall_cons in H as [? H]
         end.
  simpl in *.
  split; [|split].
  - unfold valid_settings. simpl. repeat (split; [done|]).
    by apply (read_custom_Accepted custom_entries).
  - unfold index_settings. simpl. by repeat constructor.
  - simpl. by apply read_custom_rows.
Qed.

Lemma saved_settings_as_entered_witness :
  ∃ st,
    settings_in_use
      (SettingsWindow.save_settings settings_file entries_typed rows_typed
         false).2
    = Some st ∧
    valid_settings st ∧
    Forall2 (λ (e : string * string) z, Py.int (Py.strip e.2) = Some z)
      entries_typed (index_settings st) ∧
    Forall2 (λ (r : string * string) (c : string * Z),
               c.1 = Py.strip r.1 ∧ Py.int (Py.strip r.2) = Some c.2)
      (filter named rows_typed) (custom_comparisons st).
Proof.
  apply (saved_settings_as_entered settings_file entries_typed rows_typed
           false).
  - by_compute.
  - reflexivity.
  - by_compute.
Defined.

(** A run on typed fields: the second row is blank and dropped, and the
    settings are in use although the file was not written. *)
Example save_typed :
  SettingsWindow.save_settings settings_file entries_typed rows_typed false
  = (SaveFailed,
     SettingsWindow.store settings_file
       [("code_column_index", 2); ("name_column_index", 7);
        ("incoming_column_index", 6); ("outgoing_column_index", 7);
        ("remaining_column_index", 8)]
       [("Region", 9); ("Stock", 6)]).
Proof. reflexivity. Qed.

Lemma store_frame settings ns cs key :
  key ∉ ns.*1 → key ≠ "custom_comparisons" →
  SettingsWindow.store settings ns cs !! key = settings !! key.
Proof.
  intros Hns Hc. unfold SettingsWindow.store, SettingsManager.set.
  rewrite lookup_insert_ne by done.
  revert settings. induction ns as [|[k z] ns IH]; intros settings; [done|].
  simpl in *. apply not_elem_of_cons in Hns as [Hk Hns].
  rewrite (IH Hns). by rewrite lookup_insert_ne.
Qed.

(** X14. [save_settings] touches the keys of the entry fields and
    [custom_comparisons] only, and nothing at all when it ends in an error
    box of the validation: a rejected save leaves the stored settings as they
    were. *)
Theorem save_settings_frame settings entries custom_entries written :
  texts_typed entries custom_entries →
  let run :=
    SettingsWindow.save_settings settings entries custom_entries written in
  (¬ stored run.1 → run.2 = settings) ∧
  ∀ key, key ∉ entries.*1 → key ≠ "custom_comparisons" →
         run.2 !! key = settings !! key.
Proof.
  intros _ run. split; [apply save_settings_rejected|].
  intros key Hkey Hc.
  destruct (decide (stored run.1)) as [Hs|Hs].
  2:{ unfold run in *. by rewrite (save_settings_rejected _ _ _ _ Hs). }
  unfold run in *.
  apply save_settings_stored in Hs as (ns & cs & He & _ & Hrun).
  rewrite Hrun.
  apply store_frame; [|done].
  apply read_entries_Accepted in He.
  intros Hin. apply Hkey.
  apply list_elem_of_fmap in Hin as ([k z] & -> & Hin).
  apply list_elem_of_lookup in Hin as [i Hi].
  destruct (Forall2_lookup_r _ _ _ _ _ He Hi) as ([k' t] & Hl & Hk & _).
  simpl in Hk. subst k'. apply list_elem_of_fmap. exists (k, t).
  split; [done|]. by eapply list_elem_of_lookup_2.
Qed.

Lemma save_settings_frame_witness :
  let run :=
    SettingsWindow.save_settings settings_file entries_typed
      [("Region", "")] true in
  (¬ stored run.1 → run.2 = settings_file) ∧
  ∀ key, key ∉ entries_typed.*1 → key ≠ "custom_comparisons" →
         run.2 !! key = settings_file !! key.
Proof.
  apply (save_settings_frame settings_file entries_typed [("Region", "")]
           true).
  by_compute.
Defined.

(** ** The window opened on stored settings *)

Lemma index_setting_get settings key z :
  index_setting settings key = Some z →
  SettingsManager.get settings key = Some (SInt z).
Proof.
  unfold index_setting.
  destruct (SettingsManager.get settings key) as [[z'|cs]|]; congruence.
Qed.

(** The entry fields and rows [build_ui] fills from settings in use. *)
Lemma build_ui_in_use settings st :
  settings_in_use settings = Some st →
  SettingsWindow.build_ui settings
  = ([("code_column_index", Py.str (code_column_index st));
      ("name_column_index", Py.str (name_column_index st));
      ("incoming_column_index", Py.str (incoming_column_index st));
      ("outgoing_column_index", Py.str (outgoing_column_index st));
      ("remaining_column_index", Py.str (remaining_column_index st))],
     (λ comp : string * Z, (comp.1, Py.str comp.2))
       <$> custom_comparisons st).
Proof.
  unfold settings_in_use, SettingsWindow.build_ui. simpl.
  destruct (index_setting settings "code_column_index") as [c|] eqn:Hc;
    [|done].
  destruct (index_setting settings "name_column_index") as [n|] eqn:Hn;
    [|done].
  destruct (index_setting settings "incoming_column_index") as [i|] eqn:Hi;
    [|done].
  destruct (index_setting settings "outgoing_column_index") as [o|] eqn:Ho;
    [|done].
  destruct (index_setting settings "remaining_column_index") as [r|] eqn:Hr;
    [|done].
  destruct (custom_setting settings) as [cs|] eqn:Hcs; [|done].
  simpl. intros [= <-]. simpl.
  by rewrite (index_setting_get _ _ _ Hc), (index_setting_get _ _ _ Hn),
    (index_setting_get _ _ _ Hi), (index_setting_get _ _ _ Ho),
    (index_setting_get _ _ _ Hr).
Qed.

Lemma str_not_empty z : Py.str z ≠ "".
Proof.
  unfold Py.str. destruct z as [|p|p]; simpl; [done| |done].
  pose proof (DecimalPos.Unsigned.to_uint_nonnil p).
  unfold NilZero.string_of_uint. by destruct (Pos.to_uint p).
Qed.

Lemma read_custom_build (cs : list (string * Z)) :
  Forall valid_custom cs →
  SettingsWindow.read_custom ((λ comp : string * Z, (comp.1, Py.str comp.2)) <$> cs)
  = Accepted cs.
Proof.
  induction 1 as [|[name z] cs (Hn & Hs & Hz) _ IH]; [done|].
  rewrite fmap_cons. cbn [SettingsWindow.read_custom fst snd] in *.
  rewrite Hs, (strip_str z Hz).
  rewrite (bool_decide_eq_false_2 (name = "")) by done.
  rewrite (bool_decide_eq_false_2 (Py.str z = "")) by apply str_not_empty.
  cbn [negb andb]. rewrite (isdigit_str z Hz), (int_str z Hz).
  cbn [negb]. by rewrite IH.
Qed.

Lemma read_entry_str key z rest :
  (0 ≤ z)%Z →
  SettingsWindow.read_entries ((key, Py.str z) :: rest)
  = match SettingsWindow.read_entries rest with
    | Accepted new_settings => Accepted ((key, z) :: new_settings)
    | Rejected m => Rejected m
    end.
Proof.
  intros Hz. simpl.
  by rewrite (strip_str z Hz), (isdigit_str z Hz), (int_str z Hz).
Qed.

(** X15. Opening the settings window on valid settings and pressing Save without
    touching a field stores the same settings again: every field shows a text
    that passes the validation and converts back to the stored number, and
    every custom comparison comes back under its name.  The entry fields are
    taken to return the text put into them. *)
Theorem unchanged_window_saves_same settings st :
  settings_in_use settings = Some st →
  valid_settings st →
  printable st →
  let ui := SettingsWindow.build_ui settings in
  let run := SettingsWindow.save_settings settings ui.1 ui.2 true in
  run.1 = SettingsSaved ∧ settings_in_use run.2 = Some st.
Proof.
  intros Hst (Hc & Hn & Hi & Ho & Hr & Hcs) _.
  rewrite (build_ui_in_use _ _ Hst). simpl.
  unfold SettingsWindow.save_settings.
  rewrite !read_entry_str by done. simpl SettingsWindow.read_entries.
  rewrite (read_custom_build _ Hcs).
  rewrite no_negative_index.
  - simpl. split; [done|]. rewrite store_settings_in_use. by destruct st.
  - simpl. by repeat constructor.
  - eapply Forall_impl; [exact Hcs|]. by intros c (_ & _ & ?).
Qed.

Lemma unchanged_window_saves_same_witness :
  let ui := SettingsWindow.build_ui settings_file in
  let run := SettingsWindow.save_settings settings_file ui.1 ui.2 true in
  run.1 = SettingsSaved ∧ settings_in_use run.2 = Some settings_of_file.
Proof.
  apply (unchanged_window_saves_same settings_file settings_of_file).
  - reflexivity.
  - by_compute.
  - by_compute.
Defined.

(** X16. A stored index that is negative, as a settings file edited by hand may
    hold, cannot be saved again: the window shows it with its minus sign, the
    validation of the entry fields rejects that text with the box for an
    invalid value, and the stored settings stay as they are.  The box for
    negative indices is not the one shown. *)
Theorem negative_index_rejected settings st written :
  settings_in_use settings = Some st →
  printable st →
  Exists (λ z, z < 0) (index_settings st) →
  let ui := SettingsWindow.build_ui settings in
  ∃ key z,
    index_setting settings key = Some z ∧ z < 0 ∧
    SettingsWindow.save_settings settings ui.1 ui.2 written
    = (InvalidValue key, settings).
Proof.
  intros Hst _ Hneg ui. subst ui.
  rewrite (build_ui_in_use _ _ Hst). cbn [fst snd].
  unfold SettingsWindow.save_settings.
  unfold settings_in_use in Hst.
  destruct (index_setting settings "code_column_index") as [c|] eqn:Hc;
    [|done].
  destruct (index_setting settings "name_column_index") as [n|] eqn:Hn;
    [|done].
  destruct (index_setting settings "incoming_column_index") as [i|] eqn:Hi;
    [|done].
  destruct (index_setting settings "outgoing_column_index") as [o|] eqn:Ho;
    [|done].
  destruct (index_setting settings "remaining_column_index") as [r|] eqn:Hr;
    [|done].
  destruct (custom_setting settings) as [cs|] eqn:Hcs; [|done].
  simpl in Hst. injection Hst as <-.
  unfold index_settings in Hneg.
  cbn [code_column_index name_column_index incoming_column_index
       outgoing_column_index remaining_column_index custom_comparisons] in *.
  destruct (decide (c < 0)) as [?|Hc0].
  { exists "code_column_index", c. split; [done|]. split; [done|].
    cbn [SettingsWindow.read_entries]. by rewrite (isdigit_str_negative c). }
  rewrite read_entry_str by lia.
  destruct (decide (n < 0)) as [?|Hn0].
  { exists "name_column_index", n. split; [done|]. split; [done|].
    cbn [SettingsWindow.read_entries]. by rewrite (isdigit_str_negative n). }
  rewrite read_entry_str by lia.
  destruct (decide (i < 0)) as [?|Hi0].
  { exists "incoming_column_index", i. split; [done|]. split; [done|].
    cbn [SettingsWindow.read_entries]. by rewrite (isdigit_str_negative i). }
  rewrite read_entry_str by lia.
  destruct (decide (o < 0)) as [?|Ho0].
  { exists "outgoing_column_index", o. split; [done|]. split; [done|].
    cbn [SettingsWindow.read_entries]. by rewrite (isdigit_str_negative o). }
  rewrite read_entry_str by lia.
  destruct (decide (r < 0)) as [?|Hr0].
  { exists "remaining_column_index", r. split; [done|]. split; [done|].
    cbn [SettingsWindow.read_entries]. by rewrite (isdigit_str_negative r). }
  exfalso.
  repeat (apply Exists_cons in Hneg as [?|Hneg]; [lia|]).
  by apply Exists_nil in Hneg.
Qed.

Lemma negative_index_rejected_witness :
  let ui := SettingsWindow.build_ui settings_edited in
  ∃ key z,
    index_setting settings_edited key = Some z ∧ z < 0 ∧
    SettingsWindow.save_settings settings_edited ui.1 ui.2 true
    = (InvalidValue key, settings_edited).
Proof.
  apply (negative_index_rejected settings_edited settings_of_edited true).
  - reflexivity.
  - by_compute.
  - by_compute.
Defined.

(** ** Reset to defaults *)

(** X17. After a confirmed reset the stored settings are the defaults at once,
    whatever was stored or typed before, the rows of the custom comparisons
    are gone, and a save of the window as the reset leaves it passes the
    validation and stores the defaults. *)
Theorem reset_then_save settings entries custom_entries written :
  entries.*1 = SettingsWindow.settings_config →
  let after :=
    SettingsWindow.reset_to_defaults true settings entries custom_entries in
  let run :=
    SettingsWindow.save_settings after.1.1 after.1.2 after.2 written in
  settings_in_use after.1.1 = Some default_settings ∧
  after.2 = [] ∧
  stored run.1 ∧
  settings_in_use run.2 = Some default_settings.
Proof.
  intros (t1 & t2 & t3 & t4 & t5 & ->)%entries_of_config. simpl.
  split; [done|]. split; [done|].
  destruct written; split; try done; [by left|by right].
Qed.

Lemma reset_then_save_witness :
  let after :=
    SettingsWindow.reset_to_defaults true settings_file entries_typed
      rows_typed in
  let run :=
    SettingsWindow.save_settings after.1.1 after.1.2 after.2 false in
  settings_in_use after.1.1 = Some default_settings ∧
  after.2 = [] ∧
  stored run.1 ∧
  settings_in_use run.2 = Some default_settings.
Proof.
  apply (reset_then_save settings_file entries_typed rows_typed false).
  reflexivity.
Defined.

(** ** The row counts of a result *)

Lemma keys_key_set st df1 df : key_set st df1 df = list_to_set (keys st df1 df).
Proof.
  unfold key_set, keys.
  by destruct (columns_at df1 (code_column_index st) ≫= _).
Qed.

Lemma for_each_length {A B} (f : A → res B) l ys :
  for_each f l = Ok ys → length ys = length l.
Proof. intros H%for_each_Ok. symmetry. by eapply Forall2_length. Qed.

Lemma iter_length (it : iteration) (s : gset value) : length (it s) = size s.
Proof. by rewrite (iter_elements it s). Qed.

(** X8. When no key occurs twice in a table, the row counts and the two lists of
    a result balance: the rows of A plus the keys only in B are as many as
    the rows of B plus the keys only in A, so the row difference the window
    shows is the difference of the two lists. *)
Theorem row_counts_balance it st gck df1 df2 res :
  wf_table df1 → wf_table df2 →
  calculate_result it st gck df1 df2 = Ok res →
  NoDup (keys st df1 df1) → NoDup (keys st df1 df2) →
  (row_count_1 res + length (extra_codes res)
   = row_count_2 res + length (missing_codes res))%nat.
Proof.
  intros _ _ Hres.
  destruct (calculate_result_Ok _ _ _ _ _ _ Hres)
    as (cc & dc & v1 & v2 & Hcc & _ & Hv1 & Hv2 & Hm & He & _ & -> & ->).
  unfold keys. rewrite Hcc. simpl. rewrite Hv1, Hv2. intros Hn1 Hn2.
  rewrite (for_each_length _ _ _ Hm), (for_each_length _ _ _ He), !iter_length.
  assert (length (rows df1) = length v1) as ->.
  { unfold col_values in Hv1. inv_res. by rewrite length_fmap. }
  assert (length (rows df2) = length v2) as ->.
  { unfold col_values in Hv2. inv_res. by rewrite length_fmap. }
  rewrite <- (size_list_to_set (C := gset value) v1) by done.
  rewrite <- (size_list_to_set (C := gset value) v2) by done.
  set (s1 := list_to_set v1 : gset value).
  set (s2 := list_to_set v2 : gset value).
  pose proof (size_union_alt s1 s2) as H12.
  pose proof (size_union_alt s2 s1) as H21.
  rewrite (comm_L (∪) s2 s1) in H21. lia.
Qed.

Lemma row_counts_balance_witness :
  (row_count_1 result_ab + length (extra_codes result_ab)
   = row_count_2 result_ab + length (missing_codes result_ab))%nat.
Proof.
  apply (row_counts_balance elements_order default_settings true
           table_a table_b result_ab).
  - by_compute.
  - by_compute.
  - vm_compute. reflexivity.
  - by_compute.
  - by_compute.
Defined.

(** * File selection *)

Lemma split_not_nil sep s : Py.split sep s ≠ [].
Proof.
  destruct s as [|c s]; simpl; [done|].
  destruct (Ascii.eqb c sep); [done|]. by destruct (Py.split sep s).
Qed.

(** Splitting and joining again gives the text back. *)
Lemma join_split sep s : Py.join sep (Py.split sep s) = s.
Proof.
  induction s as [|c s IH]; [done|]. simpl.
  pose proof (split_not_nil sep s) as Hne.
  destruct (Ascii.eqb_spec c sep) as [->|Hc].
  - simpl. destruct (Py.split sep s) as [|t ts]; [done|]. by rewrite IH.
  - destruct (Py.split sep s) as [|t ts]; [done|].
    simpl in *. destruct ts; simpl in *; by rewrite <- IH.
Qed.

(** No part of a split text holds the separator. *)
Lemma split_no_sep sep s : Forall (λ t, sep ∉ chars t) (Py.split sep s).
Proof.
  induction s as [|c s IH]; simpl.
  - constructor; [|done]. simpl. by apply not_elem_of_nil.
  - destruct (Ascii.eqb_spec c sep) as [->|Hc].
    + constructor; [|done]. simpl. by apply not_elem_of_nil.
    + destruct (Py.split sep s) as [|t ts].
      * constructor; [|done]. simpl.
        intros [?|H]%elem_of_cons; [done|]. by apply not_elem_of_nil in H.
      * apply Forall_cons in IH as [Ht Hts]. constructor; [|done].
        simpl. intros [?|?]%elem_of_cons; done.
Qed.

Lemma py_index_last {A} (l : list A) x : py_index (l ++ [x]) (-1) = Ok x.
Proof.
  unfold py_index. cbv zeta. rewrite length_app.
  change (length [x]) with 1%nat.
  rewrite (bool_decide_eq_true_2 (-1 < 0)) by lia.
  rewrite bool_decide_eq_true_2 by lia.
  replace (Z.to_nat (Z.of_nat (length l + 1) + -1)) with (length l) by lia.
  by rewrite list_lookup_middle.
Qed.

Lemma append_assoc (a b c : string) :
  ((a ++ b) ++ c = a ++ (b ++ c))%string.
Proof.
  induction a as [|x a IH]; [done|].
  change (String x ((a ++ b) ++ c) = String x (a ++ (b ++ c)))%string.
  by rewrite IH.
Qed.

Lemma join_cons sep t t' ts :
  Py.join sep (t :: t' :: ts)
  = (t ++ String sep (Py.join sep (t' :: ts)))%string.
Proof. done. Qed.

Lemma join_last sep pre x :
  Py.join sep (pre ++ [x])
  = match pre with
    | [] => x
    | _ => (Py.join sep pre ++ String sep x)%string
    end.
Proof.
  induction pre as [|t pre IH]; [done|].
  destruct pre as [|t' pre]; [done|].
  change ((t :: t' :: pre) ++ [x]) with (t :: t' :: (pre ++ [x])).
  rewrite !join_cons.
  change (t' :: pre ++ [x]) with ((t' :: pre) ++ [x]). rewrite IH.
  by rewrite append_assoc.
Qed.

Lemma split_last sep s :
  ∃ label,
    py_index (Py.split sep s) (-1) = Ok label ∧
    (sep ∉ chars label) ∧
    (s = label ∨ ∃ dir, s = (dir ++ String sep label)%string).
Proof.
  pose proof (split_not_nil sep s) as Hne.
  pose proof (join_split sep s) as Hj.
  pose proof (split_no_sep sep s) as Hs.
  destruct (Py.split sep s) as [|t ts _] using rev_ind; [done|].
  exists t. split; [apply py_index_last|].
  assert (sep ∉ chars t) as Ht.
  { apply (proj1 (Forall_forall _ _) Hs), elem_of_app. right. by left. }
  split; [done|]. rewrite join_last in Hj.
  destruct ts; [by left|right]. by eexists.
Qed.

(** X18. The label of a selected file is what follows the last slash of its path:
    it holds no slash, and the path is the label or ends with a slash and the
    label; taking the last part never fails.  A cancelled dialog changes
    nothing, and the other file's path and label are never touched. *)
Theorem selected_file_label file_path app :
  file_path ≠ "" →
  ∃ label,
    select_file1 file_path app
    = Ok {| file1_path := Some file_path; file1_label := label;
            file2_path := file2_path app; file2_label := file2_label app |} ∧
    select_file2 file_path app
    = Ok {| file1_path := file1_path app; file1_label := file1_label app;
            file2_path := Some file_path; file2_label := label |} ∧
    ("/"%char ∉ chars label) ∧
    (file_path = label ∨
     ∃ dir, file_path = (dir ++ String "/" label)%string).
Proof.
  intros Hp. destruct (split_last "/" file_path) as (label & Hl & Hno & Hs).
  exists label. unfold select_file1, select_file2.
  rewrite bool_decide_eq_false_2 by done. rewrite Hl. simpl. done.
Qed.

Lemma selected_file_label_witness :
  ∃ label,
    select_file1 "C:/stock/may.xlsx" app_started
    = Ok {| file1_path := Some "C:/stock/may.xlsx"; file1_label := label;
            file2_path := file2_path app_started;
            file2_label := file2_label app_started |} ∧
    select_file2 "C:/stock/may.xlsx" app_started
    = Ok {| file1_path := file1_path app_started;
            file1_label := file1_label app_started;
            file2_path := Some "C:/stock/may.xlsx"; file2_label := label |} ∧
    ("/"%char ∉ chars label) ∧
    ("C:/stock/may.xlsx" = label ∨
     ∃ dir, "C:/stock/may.xlsx" = (dir ++ String "/" label)%string).
Proof.
  apply (selected_file_label "C:/stock/may.xlsx" app_started).
  by_compute.
Defined.

Example select_may :
  select_file1 "C:/stock/may.xlsx" app_started
  = Ok {| file1_path := Some "C:/stock/may.xlsx"; file1_label := "may.xlsx";
          file2_path := None; file2_label := "No file selected" |}.
Proof. reflexivity. Qed.
